(** * SignalManager (metaflow/runner/signal_manager.py)

    A shallow embedding of the signal dispatch multiplexer and the
    properties of its registry, override table, dispatch and teardown.

    Python objects are modelled as follows.
    - [signal_map] and [replaced_signals] are the two dict objects created
      once, in the class body (lines 10-11).  No method ever assigns
      [self.signal_map] or [self.replaced_signals], so every instance
      reaches the same two dicts through the class: they live in the
      [World], not in the instance record.
    - A dict is an insertion-ordered association list (iteration over a
      Python dict follows insertion order).
    - A set of handlers is a [gset]; the order in which Python iterates a
      set is not specified, so iteration goes through a parameter
      [set_iter] that enumerates the elements in some order.
    - Handlers are compared by identity, so a handler is its object
      identity; what calling it does is given by [handler_body].  A
      handler is recorded in [calls] and returns or raises; it does not
      call back into the manager.
    - [signal.signal] is taken on valid signals, where it installs the
      new disposition and returns the previous one.  An event loop is
      asyncio's Unix loop: [add_signal_handler] and
      [remove_signal_handler] maintain its table of watchers and set the
      process disposition of the signal themselves.
    - Exceptions are values; a raise keeps the effects done before it. *)

From stdpp Require Import gmap list.

(** ** Values *)

(** [sig : int] *)
Definition signo := Z.

(** Identity of a callable passed as [handler]. *)
Definition handler := nat.

(** Identity of an [asyncio.AbstractEventLoop]. *)
Definition loop := nat.

(** The second argument of a handler: a frame object, or [None]. *)
Definition frame := option nat.

(** What [signal.signal] installs and returns: [SIG_DFL], [SIG_IGN], a
    callable, or the bound method [m._handle_signal] of the manager with
    identity [m]; and the two functions an asyncio loop installs,
    [asyncio.unix_events._sighandler_noop] while it watches a signal and
    [signal.default_int_handler] when it stops watching [SIGINT]. *)
Inductive disposition :=
| SIG_DFL
| SIG_IGN
| Callable (h : handler)
| BoundHandleSignal (m : nat)
| SighandlerNoop
| DefaultIntHandler.

#[global] Instance disposition_eq_dec : EqDecision disposition.
Proof. solve_decision. Defined.

(** The callback given to [loop.add_signal_handler] on line 36:
    [lambda: self._handle_signal(sig, None)]. *)
Inductive callback :=
| LambdaHandleSignal (m : nat) (sig : signo).

(** Keys whose absence raises [KeyError]: a dict key or a set element. *)
Inductive key :=
| KSig (sig : signo)
| KHandler (h : handler).

Inductive exn :=
| KeyError (k : key)
| RuntimeError
| HandlerError (code : nat).

(** One invocation [handler(signum, frame)]. *)
Definition call := (handler * signo * frame)%type.

(** ** Insertion-ordered dict *)

Module PyDict.
Section dict.
Context {V : Type}.

Definition dict := list (signo * V).

Definition empty : dict := [].

(** [list(d)]: the keys, in insertion order. *)
Definition keys (d : dict) : list signo := map fst d.

(** [d.get(k)] *)
Fixpoint get (d : dict) (k : signo) : option V :=
  match d with
  | [] => None
  | (k', v) :: d' => if decide (k' = k) then Some v else get d' k
  end.

(** [k in d] *)
Definition contains (d : dict) (k : signo) : bool :=
  match get d k with Some _ => true | None => false end.

(** [d[k] = v]: overwrite in place, or append a new key. *)
Fixpoint set (d : dict) (k : signo) (v : V) : dict :=
  match d with
  | [] => [(k, v)]
  | (k', v') :: d' =>
      if decide (k' = k) then (k', v) :: d' else (k', v') :: set d' k v
  end.

(** [del d[k]] on a present key. *)
Fixpoint del (d : dict) (k : signo) : dict :=
  match d with
  | [] => []
  | (k', v') :: d' =>
      if decide (k' = k) then d' else (k', v') :: del d' k
  end.
End dict.
Arguments dict : clear implicits.
End PyDict.

Abbreviation dict := PyDict.dict.

(** ** The world: class attributes, process and scheduler state *)

Record World := mkWorld {
  (** class attribute, line 10 *)
  signal_map : dict (gset handler);
  (** class attribute, line 11 *)
  replaced_signals : dict disposition;
  (** the process's signal dispositions, as [signal.getsignal] reads them *)
  os_disposition : signo -> disposition;
  (** the watchers registered with each event loop *)
  loop_watchers : loop -> signo -> option callback;
  (** the loop running on the calling thread, if any *)
  running_loop : option loop;
  (** every handler invocation so far, oldest first *)
  calls : list call;
}.

Definition with_signal_map (sm : dict (gset handler)) (w : World) : World :=
  mkWorld sm (replaced_signals w) (os_disposition w) (loop_watchers w)
          (running_loop w) (calls w).

Definition with_replaced_signals (rs : dict disposition) (w : World) : World :=
  mkWorld (signal_map w) rs (os_disposition w) (loop_watchers w)
          (running_loop w) (calls w).

Definition with_os_disposition (os : signo -> disposition) (w : World)
    : World :=
  mkWorld (signal_map w) (replaced_signals w) os (loop_watchers w)
          (running_loop w) (calls w).

Definition with_loop_watchers (lw : loop -> signo -> option callback)
    (w : World) : World :=
  mkWorld (signal_map w) (replaced_signals w) (os_disposition w) lw
          (running_loop w) (calls w).

Definition with_calls (cs : list call) (w : World) : World :=
  mkWorld (signal_map w) (replaced_signals w) (os_disposition w)
          (loop_watchers w) (running_loop w) cs.

(** ** State and exception monad *)

Inductive result (A : Type) :=
| Ok (a : A)
| Raise (e : exn).
Arguments Ok {A} a.
Arguments Raise {A} e.

Definition M (A : Type) := World -> result A * World.

Definition ret {A} (a : A) : M A := fun w => (Ok a, w).

Definition raise {A} (e : exn) : M A := fun w => (Raise e, w).

Definition bind {A B} (m : M A) (k : A -> M B) : M B :=
  fun w =>
    match m w with
    | (Ok a, w') => k a w'
    | (Raise e, w') => (Raise e, w')
    end.

Declare Scope py_scope.
Delimit Scope py_scope with py.
Notation "x <- m ;; k" := (bind m (fun x => k))
  (at level 100, m at next level, right associativity) : py_scope.
Notation "m ;; k" := (bind m (fun _ => k))
  (at level 100, right associativity) : py_scope.
Open Scope py_scope.

Definition gets {A} (f : World -> A) : M A := fun w => (Ok (f w), w).

Definition modify (f : World -> World) : M unit := fun w => (Ok tt, f w).

(** [try: body  except KeyError: handler] *)
Definition try_except_KeyError {A} (body : M A) (on_error : M A) : M A :=
  fun w =>
    match body w with
    | (Raise (KeyError _), w') => on_error w'
    | r => r
    end.

(** [try: body  except RuntimeError: handler] *)
Definition try_except_RuntimeError {A} (body : M A) (on_error : M A) : M A :=
  fun w =>
    match body w with
    | (Raise RuntimeError, w') => on_error w'
    | r => r
    end.

(** [for x in xs: body(x)]; the first exception leaves the loop. *)
Fixpoint for_each {X} (xs : list X) (body : X -> M unit) : M unit :=
  match xs with
  | [] => ret tt
  | x :: xs' => body x ;; for_each xs' body
  end.

(** ** Primitives of the runtime *)

(** [signal.signal(sig, d)]: install [d], return the previous disposition. *)
Definition signal_signal (sig : signo) (d : disposition) : M disposition :=
  fun w =>
    (Ok (os_disposition w sig),
     with_os_disposition
       (fun s => if decide (s = sig) then d else os_disposition w s) w).

(** [asyncio.get_running_loop()]: raises [RuntimeError] without a loop. *)
Definition get_running_loop : M loop :=
  fun w =>
    match running_loop w with
    | Some l => (Ok l, w)
    | None => (Raise RuntimeError, w)
    end.

(** [signal.SIGINT] *)
Definition SIGINT : signo := 2%Z.

(** The disposition a loop leaves behind when it stops watching [sig]:
    [signal.default_int_handler] for [SIGINT], [SIG_DFL] otherwise. *)
Definition loop_default (sig : signo) : disposition :=
  if decide (sig = SIGINT) then DefaultIntHandler else SIG_DFL.

(** [l.add_signal_handler(sig, cb)]: the watcher replaces an earlier one
    for [sig], and the loop installs its no-op handler for [sig] with
    [signal.signal]. *)
Definition loop_add_signal_handler (l : loop) (sig : signo) (cb : callback)
    : M unit :=
  modify (fun w =>
    with_os_disposition
      (fun s => if decide (s = sig) then SighandlerNoop
                else os_disposition w s)
      (with_loop_watchers
         (fun l' s => if decide (l' = l /\ s = sig) then Some cb
                      else loop_watchers w l' s) w)).

(** [l.remove_signal_handler(sig)]: without a watcher for [sig] it
    returns [False] and does nothing; otherwise it drops the watcher,
    resets the disposition of [sig] with [signal.signal] and returns
    [True]. *)
Definition loop_remove_signal_handler (l : loop) (sig : signo) : M bool :=
  fun w =>
    match loop_watchers w l sig with
    | None => (Ok false, w)
    | Some _ =>
        (Ok true,
         with_os_disposition
           (fun s => if decide (s = sig) then loop_default sig
                     else os_disposition w s)
           (with_loop_watchers
              (fun l' s => if decide (l' = l /\ s = sig) then None
                           else loop_watchers w l' s) w))
    end.

(** [self.signal_map[sig]] *)
Definition signal_map_getitem (sig : signo) : M (gset handler) :=
  fun w =>
    match PyDict.get (signal_map w) sig with
    | Some hs => (Ok hs, w)
    | None => (Raise (KeyError (KSig sig)), w)
    end.

(** [self.signal_map[sig] = hs] *)
Definition signal_map_setitem (sig : signo) (hs : gset handler) : M unit :=
  modify (fun w => with_signal_map (PyDict.set (signal_map w) sig hs) w).

(** [self.replaced_signals[sig]] *)
Definition replaced_signals_getitem (sig : signo) : M disposition :=
  fun w =>
    match PyDict.get (replaced_signals w) sig with
    | Some d => (Ok d, w)
    | None => (Raise (KeyError (KSig sig)), w)
    end.

(** [self.replaced_signals[sig] = d] *)
Definition replaced_signals_setitem (sig : signo) (d : disposition) : M unit :=
  modify (fun w =>
    with_replaced_signals (PyDict.set (replaced_signals w) sig d) w).

(** [del self.replaced_signals[sig]] *)
Definition replaced_signals_delitem (sig : signo) : M unit :=
  fun w =>
    match PyDict.get (replaced_signals w) sig with
    | Some _ =>
        (Ok tt,
         with_replaced_signals (PyDict.del (replaced_signals w) sig) w)
    | None => (Raise (KeyError (KSig sig)), w)
    end.

(** [self.signal_map[sig].add(handler)]: the set object held by the dict
    is mutated in place. *)
Definition signal_map_set_add (sig : signo) (h : handler) : M unit :=
  hs <- signal_map_getitem sig ;;
  signal_map_setitem sig (hs ∪ {[h]}).

(** [self.signal_map[sig].remove(handler)]: [KeyError] on a non-member. *)
Definition signal_map_set_remove (sig : signo) (h : handler) : M unit :=
  hs <- signal_map_getitem sig ;;
  if decide (h ∈ hs) then signal_map_setitem sig (hs ∖ {[h]})
  else raise (KeyError (KHandler h)).

(** ** The class *)

(** The instance attributes: [__init__] assigns [event_loop] and nothing
    else.  [self_id] is the identity of the object, which the bound
    method [self._handle_signal] carries. *)
Record SignalManager := mkSignalManager {
  self_id : nat;
  event_loop : option loop;
}.

Section SignalManager.

(** What invoking handler [h] with [(sig, frame)] does besides being
    recorded in [calls]: return normally ([None]) or raise. *)
Variable handler_body : handler -> signo -> frame -> option exn.

(** The order in which a set of handlers is iterated. *)
Variable set_iter : gset handler -> list handler.

(** [handler(signum, frame)] *)
Definition call_handler (h : handler) (sig : signo) (fr : frame) : M unit :=
  modify (fun w => with_calls (calls w ++ [(h, sig, fr)]) w) ;;
  match handler_body h sig fr with
  | None => ret tt
  | Some e => raise e
  end.

(** Lines 13-17. *)
Definition __init__ (self_id : nat) (event_loop_arg : option loop)
    : M SignalManager :=
  try_except_RuntimeError
    (l <- match event_loop_arg with
          | Some l => ret l
          | None => get_running_loop
          end ;;
     ret (mkSignalManager self_id (Some l)))
    (ret (mkSignalManager self_id None)).

(** Lines 26-28. *)
Definition _handle_signal (self : SignalManager) (signum : signo)
    (fr : frame) : M unit :=
  hs <- signal_map_getitem signum ;;
  for_each (set_iter hs) (fun h => call_handler h signum fr).

(** Lines 30-37. *)
Definition _add_signal_handler (self : SignalManager) (sig : signo)
    : M unit :=
  match event_loop self with
  | None =>
      replaced <- signal_signal sig (BoundHandleSignal (self_id self)) ;;
      replaced_signals_setitem sig replaced
  | Some l =>
      loop_add_signal_handler l sig (LambdaHandleSignal (self_id self) sig)
  end.

(** Lines 39-44. *)
Definition _remove_signal_handler (self : SignalManager) (sig : signo)
    : M unit :=
  match event_loop self with
  | None =>
      d <- replaced_signals_getitem sig ;;
      signal_signal sig d ;;
      replaced_signals_delitem sig
  | Some l =>
      loop_remove_signal_handler l sig ;;
      ret tt
  end.

(** Lines 46-61. *)
Definition add_signal_handler (self : SignalManager) (sig : signo)
    (h : handler) : M unit :=
  present <- gets (fun w => PyDict.contains (signal_map w) sig) ;;
  (if negb present then
     signal_map_setitem sig ∅ ;;
     _add_signal_handler self sig
   else ret tt) ;;
  signal_map_set_add sig h.

(** Lines 63-80. *)
Definition remove_signal_handler (self : SignalManager) (sig : signo)
    (h : handler) : M unit :=
  present <- gets (fun w => PyDict.contains (signal_map w) sig) ;;
  if negb present then ret tt
  else
    try_except_KeyError (signal_map_set_remove sig h) (ret tt).

(** Lines 19-24.  The three arguments describing a pending exception are
    not used.  Neither loop changes the dict it iterates, so its keys can
    be read when the loop starts. *)
Definition __exit__ (self : SignalManager) : M unit :=
  sigs <- gets (fun w => PyDict.keys (signal_map w)) ;;
  for_each sigs (fun sig => _remove_signal_handler self sig) ;;
  sigs' <- gets (fun w => PyDict.keys (replaced_signals w)) ;;
  for_each sigs' (fun sig =>
    d <- replaced_signals_getitem sig ;;
    signal_signal sig d ;;
    ret tt).

End SignalManager.

(** ** Notions used to state the properties *)

(** A call of one of the two public methods. *)
Inductive op :=
| OpAdd (sig : signo) (h : handler)
| OpRemove (sig : signo) (h : handler).

#[global] Instance op_eq_dec : EqDecision op.
Proof. solve_decision. Defined.

Definition do_op (self : SignalManager) (o : op) : M unit :=
  match o with
  | OpAdd sig h => add_signal_handler self sig h
  | OpRemove sig h => remove_signal_handler self sig h
  end.

(** A sequence of public calls on one manager. *)
Definition run (self : SignalManager) (ops : list op) : M unit :=
  for_each ops (do_op self).

(** [self.signal_map] and [self.replaced_signals] as an instance reads
    them: the instance has no attribute of either name, so the lookup
    ends at the class attribute, whichever instance asks. *)
Definition self_signal_map (self : SignalManager) (w : World)
    : dict (gset handler) := signal_map w.

Definition self_replaced_signals (self : SignalManager) (w : World)
    : dict disposition := replaced_signals w.

(** The handler set registered for [sig]; empty without an entry. *)
Definition handlers_of (w : World) (sig : signo) : gset handler :=
  default ∅ (PyDict.get (signal_map w) sig).

(** The disposition a direct-mode teardown puts back for [sig]: the
    recorded one or, without a record, the current one. *)
Definition recorded_or_current (w : World) (sig : signo) : disposition :=
  match PyDict.get (replaced_signals w) sig with
  | Some d => d
  | None => os_disposition w sig
  end.

(** The state a direct-mode manager keeps between public calls: the two
    dicts have the same keys, in the same order, each once. *)
Definition direct_consistent (w : World) : Prop :=
  PyDict.keys (replaced_signals w) = PyDict.keys (signal_map w) /\
  NoDup (PyDict.keys (signal_map w)).

(** [m] never changes the component [f] of the world, whether it returns
    or raises. *)
Definition preserves {A B} (f : World -> B) (m : M A) : Prop :=
  forall w, f (snd (m w)) = f w.

(** How often [h] was invoked with [(sig, fr)] in a list of calls. *)
Fixpoint times_called (h : handler) (sig : signo) (fr : frame)
    (cs : list call) : nat :=
  match cs with
  | [] => 0
  | c :: cs' =>
      (if decide (c = (h, sig, fr)) then 1 else 0)
      + times_called h sig fr cs'
  end.

Section Dispatch.
Variable handler_body : handler -> signo -> frame -> option exn.
Variable set_iter : gset handler -> list handler.

(** The handlers a fan-out over [hs] reaches: up to and including the
    first one that raises. *)
Fixpoint invoked (sig : signo) (fr : frame) (hs : list handler)
    : list handler :=
  match hs with
  | [] => []
  | h :: hs' =>
      h :: match handler_body h sig fr with
           | None => invoked sig fr hs'
           | Some _ => []
           end
  end.

(** How a fan-out over [hs] ends. *)
Fixpoint fan_out_result (sig : signo) (fr : frame) (hs : list handler)
    : result unit :=
  match hs with
  | [] => Ok tt
  | h :: hs' =>
      match handler_body h sig fr with
      | None => fan_out_result sig fr hs'
      | Some e => Raise e
      end
  end.

(** The invocations made by one delivery of [sig] in state [w]. *)
Definition delivered (self : SignalManager) (sig : signo) (fr : frame)
    (w : World) : list call :=
  drop (length (calls w))
       (calls (snd (_handle_signal handler_body set_iter self sig fr w))).
End Dispatch.

(** ** Concrete instances *)

Definition SIGUSR1 : signo := 10%Z.
Definition SIGTERM : signo := 15%Z.

(** A process in which no manager has done anything yet. *)
Definition initial_world (running : option loop) : World :=
  mkWorld PyDict.empty PyDict.empty (fun _ => SIG_DFL) (fun _ _ => None)
          running [].

(** Handlers that all return normally. *)
Definition quiet_handlers : handler -> signo -> frame -> option exn :=
  fun _ _ _ => None.

(** Handler [3] raises, every other handler returns normally. *)
Definition handler_3_raises : handler -> signo -> frame -> option exn :=
  fun h _ _ => if decide (h = 3%nat) then Some (HandlerError 1) else None.

(** A manager constructed without a loop while none is running. *)
Definition direct_manager : SignalManager := mkSignalManager 0 None.

(** A manager constructed on loop [0]. *)
Definition loop_manager : SignalManager := mkSignalManager 1 (Some 0%nat).

(** [SIGUSR1] registered with handlers [1], [2] and [3], direct mode. *)
Definition three_handlers : World :=
  snd (run direct_manager
         [OpAdd SIGUSR1 1%nat; OpAdd SIGUSR1 2%nat; OpAdd SIGUSR1 3%nat]
         (initial_world None)).

(** ** Notions for whole lifetimes, with several managers *)

(** A call that reaches the class: a public method or teardown on some
    instance, or a delivery through its dispatch routine. *)
Inductive event :=
| EvAdd (self : SignalManager) (sig : signo) (h : handler)
| EvRemove (self : SignalManager) (sig : signo) (h : handler)
| EvExit (self : SignalManager)
| EvDeliver (self : SignalManager) (sig : signo) (fr : frame).

Section Events.
Variable handler_body : handler -> signo -> frame -> option exn.
Variable set_iter : gset handler -> list handler.

Definition do_event (e : event) : M unit :=
  match e with
  | EvAdd self sig h => add_signal_handler self sig h
  | EvRemove self sig h => remove_signal_handler self sig h
  | EvExit self => __exit__ self
  | EvDeliver self sig fr => _handle_signal handler_body set_iter self sig fr
  end.

(** The world after a sequence of events, each caller going on after an
    exception with the world the raise left. *)
Definition after_events (es : list event) (w : World) : World :=
  foldl (fun w e => snd (do_event e w)) w es.
End Events.

(** What the class keeps true of its two dicts whatever the instances
    do: no key twice, and every override key is a registry key. *)
Definition class_consistent (w : World) : Prop :=
  NoDup (PyDict.keys (signal_map w)) /\
  NoDup (PyDict.keys (replaced_signals w)) /\
  PyDict.keys (replaced_signals w) ⊆ PyDict.keys (signal_map w).

(** Whether [h] is registered for [sig] after the public calls [ops],
    given whether it was before: the last call naming the pair decides. *)
Fixpoint registered_after (ops : list op) (sig : signo) (h : handler)
    (before : bool) : bool :=
  match ops with
  | [] => before
  | OpAdd s g :: ops' =>
      registered_after ops' sig h
        (if decide (s = sig /\ g = h) then true else before)
  | OpRemove s g :: ops' =>
      registered_after ops' sig h
        (if decide (s = sig /\ g = h) then false else before)
  end.

(** The signal a public call names. *)
Definition op_signal (o : op) : signo :=
  match o with
  | OpAdd sig _ => sig
  | OpRemove sig _ => sig
  end.

(** [m] only takes the world to worlds related to it by [R], whether it
    returns or raises. *)
Definition stays_within {A} (R : relation World) (m : M A) : Prop :=
  forall w, R w (snd (m w)).

(** The override table only loses entries. *)
Definition override_shrinks : relation World :=
  fun w w' =>
    PyDict.keys (replaced_signals w') `sublist_of`
    PyDict.keys (replaced_signals w).

(** [SIGUSR1] registered with the single handler [1], direct mode. *)
Definition one_handler : World :=
  snd (add_signal_handler direct_manager SIGUSR1 1%nat (initial_world None)).

(** A process that ignores [SIGTERM], with loop [0] running. *)
Definition ignoring_sigterm : World :=
  mkWorld PyDict.empty PyDict.empty
          (fun s => if decide (s = SIGTERM) then SIG_IGN else SIG_DFL)
          (fun _ _ => None) (Some 0%nat) [].

(** A direct-mode manager registered [SIGUSR1], then an event-loop
    manager registered [SIGTERM]. *)
Definition mixed_modes : World :=
  snd ((add_signal_handler direct_manager SIGUSR1 1%nat ;;
        add_signal_handler loop_manager SIGTERM 2%nat)
         (initial_world (Some 0%nat))).

(** * Properties *)

(** ** Dict lemmas *)

Module PyDictFacts.
Import PyDict.
Section facts.
Context {V : Type}.
Implicit Types (d : dict V) (k : signo) (v : V).

Lemma get_None_keys d k : get d k = None <-> k ∉ keys d.
Proof.
  induction d as [|[k' v'] d IH]; simpl.
  - split; [intros _; apply not_elem_of_nil | done].
  - rewrite not_elem_of_cons. case_decide; subst.
    + split; [done | intros [? _]; done].
    + rewrite IH. split; [intros ?; split; congruence | intros [_ ?]; done].
Qed.

Lemma get_Some_keys d k : is_Some (get d k) <-> k ∈ keys d.
Proof.
  rewrite <- not_eq_None_Some, get_None_keys.
  split; [apply dec_stable | auto].
Qed.

Lemma contains_true d k : contains d k = true <-> k ∈ keys d.
Proof.
  rewrite <- get_Some_keys. unfold contains.
  destruct (get d k); split; eauto; try done; by intros ?%is_Some_None.
Qed.

Lemma contains_false d k : contains d k = false <-> get d k = None.
Proof. unfold contains. destruct (get d k); split; done. Qed.

Lemma get_set_eq d k v : get (set d k v) k = Some v.
Proof.
  induction d as [|[k' v'] d IH]; simpl.
  - by rewrite decide_True.
  - case_decide; simpl; [by rewrite decide_True | by rewrite decide_False].
Qed.

Lemma get_set_ne d k k' v : k ≠ k' -> get (set d k v) k' = get d k'.
Proof.
  intros Hne. induction d as [|[k0 v0] d IH]; simpl.
  - by rewrite decide_False.
  - case_decide; simpl; subst.
    + by rewrite !decide_False.
    + by rewrite IH.
Qed.

Lemma set_get_id d k v : get d k = Some v -> set d k v = d.
Proof.
  induction d as [|[k' v'] d IH]; simpl; [done|].
  case_decide; subst; [congruence | intros ?; by rewrite IH].
Qed.

Lemma set_set d k v v' : set (set d k v) k v' = set d k v'.
Proof.
  induction d as [|[k0 v0] d IH]; simpl.
  - by rewrite decide_True.
  - case_decide; simpl; [by rewrite decide_True | by rewrite decide_False, IH].
Qed.

Lemma keys_set_present d k v : k ∈ keys d -> keys (set d k v) = keys d.
Proof.
  induction d as [|[k' v'] d IH]; simpl.
  - by intros ?%elem_of_nil.
  - case_decide; subst; simpl; [done|].
    intros [?|?]%elem_of_cons; [congruence | by rewrite IH].
Qed.

Lemma keys_set_absent d k v : k ∉ keys d -> keys (set d k v) = keys d ++ [k].
Proof.
  induction d as [|[k' v'] d IH]; simpl; [done|].
  rewrite not_elem_of_cons. intros [? ?].
  rewrite decide_False by congruence. simpl. by rewrite IH.
Qed.
End facts.
End PyDictFacts.

(** ** The public methods, case by case *)

Import PyDict PyDictFacts.

Lemma with_signal_map_id w : with_signal_map (signal_map w) w = w.
Proof. by destruct w. Qed.

Lemma with_calls_id w : with_calls (calls w) w = w.
Proof. by destruct w. Qed.

(** Unfold the monad on a goal whose dict lookups have been rewritten. *)
Ltac step_monad :=
  repeat progress
    (unfold bind, gets, modify, ret, raise, try_except_KeyError,
       signal_map_set_add, signal_map_set_remove, signal_map_getitem,
       signal_map_setitem, replaced_signals_getitem,
       replaced_signals_setitem, replaced_signals_delitem, signal_signal,
       loop_add_signal_handler, loop_remove_signal_handler; simpl).

Lemma add_signal_handler_present self sig h w hs :
  get (signal_map w) sig = Some hs ->
  add_signal_handler self sig h w =
    (Ok tt, with_signal_map (set (signal_map w) sig (hs ∪ {[h]})) w).
Proof.
  intros Hget. unfold add_signal_handler, contains. step_monad.
  by rewrite Hget; simpl; rewrite Hget.
Qed.

Lemma add_signal_handler_absent_direct self sig h w :
  event_loop self = None ->
  get (signal_map w) sig = None ->
  add_signal_handler self sig h w =
    (Ok tt,
     mkWorld (set (signal_map w) sig {[h]})
             (set (replaced_signals w) sig (os_disposition w sig))
             (fun s => if decide (s = sig)
                       then BoundHandleSignal (self_id self)
                       else os_disposition w s)
             (loop_watchers w) (running_loop w) (calls w)).
Proof.
  intros Hdirect Hget.
  unfold add_signal_handler, _add_signal_handler, contains. step_monad.
  rewrite Hget, Hdirect; simpl. step_monad.
  rewrite get_set_eq. unfold with_signal_map; simpl.
  by rewrite set_set, (left_id_L ∅ (∪)).
Qed.

Lemma add_signal_handler_absent_loop self l sig h w :
  event_loop self = Some l ->
  get (signal_map w) sig = None ->
  add_signal_handler self sig h w =
    (Ok tt,
     mkWorld (set (signal_map w) sig {[h]})
             (replaced_signals w)
             (fun s => if decide (s = sig) then SighandlerNoop
                       else os_disposition w s)
             (fun l' s => if decide (l' = l /\ s = sig)
                          then Some (LambdaHandleSignal (self_id self) sig)
                          else loop_watchers w l' s)
             (running_loop w) (calls w)).
Proof.
  intros Hloop Hget.
  unfold add_signal_handler, _add_signal_handler, contains. step_monad.
  rewrite Hget, Hloop; simpl. step_monad.
  rewrite get_set_eq. unfold with_signal_map; simpl.
  by rewrite set_set, (left_id_L ∅ (∪)).
Qed.

(** [add_signal_handler] returns normally in every state. *)
Lemma add_signal_handler_returns self sig h w :
  exists w', add_signal_handler self sig h w = (Ok tt, w').
Proof.
  destruct (get (signal_map w) sig) as [hs|] eqn:Hget.
  - eexists. by apply add_signal_handler_present.
  - destruct (event_loop self) as [l|] eqn:Hmode; eexists.
    + by apply add_signal_handler_absent_loop.
    + by apply add_signal_handler_absent_direct.
Qed.

Lemma remove_signal_handler_absent self sig h w :
  get (signal_map w) sig = None ->
  remove_signal_handler self sig h w = (Ok tt, w).
Proof.
  intros Hget. unfold remove_signal_handler, contains. step_monad.
  by rewrite Hget.
Qed.

Lemma remove_signal_handler_not_member self sig h w hs :
  get (signal_map w) sig = Some hs -> h ∉ hs ->
  remove_signal_handler self sig h w = (Ok tt, w).
Proof.
  intros Hget Hnotin. unfold remove_signal_handler, contains. step_monad.
  rewrite Hget; simpl. rewrite Hget. by rewrite decide_False.
Qed.

Lemma remove_signal_handler_member self sig h w hs :
  get (signal_map w) sig = Some hs -> h ∈ hs ->
  remove_signal_handler self sig h w =
    (Ok tt, with_signal_map (set (signal_map w) sig (hs ∖ {[h]})) w).
Proof.
  intros Hget Hin. unfold remove_signal_handler, contains. step_monad.
  rewrite Hget; simpl. rewrite Hget. by rewrite decide_True.
Qed.

(** ** Frame properties: what a computation leaves alone *)

Section preserves.
Context {B : Type} (f : World -> B).

Lemma preserves_ret {A} (a : A) : preserves f (ret a).
Proof. done. Qed.

Lemma preserves_raise {A} (e : exn) : preserves f (raise (A:=A) e).
Proof. done. Qed.

Lemma preserves_gets {A} (g : World -> A) : preserves f (gets g).
Proof. done. Qed.

Lemma preserves_bind {A C} (m : M A) (k : A -> M C) :
  preserves f m -> (forall a, preserves f (k a)) -> preserves f (bind m k).
Proof.
  intros Hm Hk w. unfold bind. specialize (Hm w).
  destruct (m w) as [[a|e] w1]; simpl in *; [|done].
  by rewrite Hk.
Qed.

Lemma preserves_for_each {X} (xs : list X) (body : X -> M unit) :
  (forall x, preserves f (body x)) -> preserves f (for_each xs body).
Proof.
  intros Hbody. induction xs as [|x xs IH]; simpl.
  - apply preserves_ret.
  - apply preserves_bind; auto.
Qed.

Lemma preserves_try_except_KeyError {A} (body on_error : M A) :
  preserves f body -> preserves f on_error ->
  preserves f (try_except_KeyError body on_error).
Proof.
  intros Hb Hh w. unfold try_except_KeyError. specialize (Hb w).
  destruct (body w) as [[a|[]] w1]; simpl in *; try done.
  by rewrite Hh.
Qed.

Lemma preserves_if {A} (b : bool) (m1 m2 : M A) :
  preserves f m1 -> preserves f m2 -> preserves f (if b then m1 else m2).
Proof. by destruct b. Qed.
End preserves.

(** The primitives, component by component. *)
Lemma signal_signal_frame sig d :
  preserves signal_map (signal_signal sig d) /\
  preserves replaced_signals (signal_signal sig d) /\
  preserves loop_watchers (signal_signal sig d) /\
  preserves calls (signal_signal sig d).
Proof. done. Qed.

Lemma replaced_signals_getitem_frame {B} (f : World -> B) sig :
  preserves f (replaced_signals_getitem sig).
Proof.
  intros w. unfold replaced_signals_getitem.
  by destruct (get (replaced_signals w) sig).
Qed.

Lemma signal_map_getitem_frame {B} (f : World -> B) sig :
  preserves f (signal_map_getitem sig).
Proof.
  intros w. unfold signal_map_getitem. by destruct (get (signal_map w) sig).
Qed.

Lemma replaced_signals_delitem_frame sig :
  preserves signal_map (replaced_signals_delitem sig) /\
  preserves os_disposition (replaced_signals_delitem sig) /\
  preserves loop_watchers (replaced_signals_delitem sig) /\
  preserves calls (replaced_signals_delitem sig).
Proof.
  repeat split; intros w; unfold replaced_signals_delitem;
    by destruct (get (replaced_signals w) sig).
Qed.

Lemma loop_remove_signal_handler_frame l sig :
  preserves signal_map (loop_remove_signal_handler l sig) /\
  preserves replaced_signals (loop_remove_signal_handler l sig) /\
  preserves calls (loop_remove_signal_handler l sig).
Proof.
  repeat split; intros w; unfold loop_remove_signal_handler;
    by destruct (loop_watchers w l sig).
Qed.

Lemma signal_map_setitem_frame sig hs :
  preserves replaced_signals (signal_map_setitem sig hs) /\
  preserves os_disposition (signal_map_setitem sig hs) /\
  preserves loop_watchers (signal_map_setitem sig hs) /\
  preserves calls (signal_map_setitem sig hs).
Proof. done. Qed.

(** One step through the structure of a computation. *)
Ltac preserves_step :=
  first
    [ apply preserves_ret | apply preserves_raise | apply preserves_gets
    | apply replaced_signals_getitem_frame | apply signal_map_getitem_frame
    | apply signal_signal_frame | apply replaced_signals_delitem_frame
    | apply loop_remove_signal_handler_frame | apply signal_map_setitem_frame
    | apply preserves_bind; [|intros ?]
    | apply preserves_for_each; intros ?
    | apply preserves_try_except_KeyError
    | apply preserves_if
    | case_decide ].

(** Teardown never writes to the registry: [_remove_signal_handler]
    touches the override table, the dispositions and the watchers only. *)
Lemma _remove_signal_handler_signal_map self sig :
  preserves signal_map (_remove_signal_handler self sig).
Proof.
  unfold _remove_signal_handler.
  destruct (event_loop self); repeat preserves_step.
Qed.

Lemma __exit___signal_map self : preserves signal_map (__exit__ self).
Proof.
  unfold __exit__.
  repeat (preserves_step || apply _remove_signal_handler_signal_map).
Qed.

(** [remove_signal_handler] writes to the registry only. *)
Lemma remove_signal_handler_frame self sig h :
  preserves replaced_signals (remove_signal_handler self sig h) /\
  preserves os_disposition (remove_signal_handler self sig h) /\
  preserves loop_watchers (remove_signal_handler self sig h) /\
  preserves calls (remove_signal_handler self sig h).
Proof.
  unfold remove_signal_handler, signal_map_set_remove.
  repeat split; repeat preserves_step.
Qed.

(** ** Direct mode: install, restore, teardown *)

Lemma recorded_or_current_cons w k d rs s :
  replaced_signals w = (k, d) :: rs ->
  recorded_or_current w s =
    if decide (k = s) then d
    else match get rs s with Some d' => d' | None => os_disposition w s end.
Proof.
  intros Hrs. unfold recorded_or_current. rewrite Hrs; simpl.
  by destruct (decide (k = s)).
Qed.

(** The first loop of [__exit__] in direct mode, run over the keys of the
    override table itself: it restores every recorded disposition and
    empties the table. *)
Lemma restore_all_direct self :
  event_loop self = None ->
  forall rs w, replaced_signals w = rs ->
  exists w',
    for_each (keys rs) (fun sig => _remove_signal_handler self sig) w
      = (Ok tt, w') /\
    signal_map w' = signal_map w /\
    replaced_signals w' = [] /\
    (NoDup (keys rs) ->
       forall s, os_disposition w' s = recorded_or_current w s) /\
    loop_watchers w' = loop_watchers w /\
    calls w' = calls w.
Proof.
  intros Hdirect rs. induction rs as [|[k d] rs IH]; intros w Hrs.
  - exists w. simpl. repeat split; try done.
    intros _ s. unfold recorded_or_current. by rewrite Hrs.
  - set (w1 := with_replaced_signals rs
                 (with_os_disposition
                    (fun s => if decide (s = k) then d
                              else os_disposition w s) w)).
    destruct (IH w1 eq_refl) as (w' & Hrun & Hsm & Hrs' & Hos & Hlw & Hcs).
    exists w'. simpl.
    assert (_remove_signal_handler self k w = (Ok tt, w1)) as Hstep.
    { unfold _remove_signal_handler. rewrite Hdirect. step_monad.
      rewrite Hrs; simpl. rewrite !decide_True by done. simpl.
      rewrite Hrs; simpl. by rewrite !decide_True by done. }
    unfold bind at 1. rewrite Hstep, Hrun.
    repeat split; try done.
    intros [Hk Hnd]%NoDup_cons s. rewrite Hos by done.
    rewrite (recorded_or_current_cons w k d rs) by done.
    unfold recorded_or_current; simpl.
    destruct (decide (k = s)) as [->|Hne].
    + apply get_None_keys in Hk. rewrite Hk. by rewrite decide_True.
    + by rewrite decide_False by congruence.
Qed.

(** Teardown of a direct-mode manager whose two dicts have the same keys:
    it returns, the override table is empty, every recorded disposition
    is back, and the registry is as it was. *)
Lemma __exit___direct self w :
  event_loop self = None ->
  keys (replaced_signals w) = keys (signal_map w) ->
  exists w',
    __exit__ self w = (Ok tt, w') /\
    signal_map w' = signal_map w /\
    replaced_signals w' = [] /\
    (NoDup (keys (signal_map w)) ->
       forall s, os_disposition w' s = recorded_or_current w s) /\
    loop_watchers w' = loop_watchers w /\
    calls w' = calls w.
Proof.
  intros Hdirect Hkeys.
  destruct (restore_all_direct self Hdirect (replaced_signals w) w eq_refl)
    as (w' & Hrun & Hsm & Hrs & Hos & Hlw & Hcs).
  exists w'. unfold __exit__. step_monad.
  rewrite <- Hkeys, Hrun, Hrs. simpl.
  repeat split; done.
Qed.

(** Teardown with a registry key that has no override entry stops at the
    first such key with [KeyError]. *)
Lemma __exit___direct_stale self w k hs sm :
  event_loop self = None ->
  signal_map w = (k, hs) :: sm ->
  replaced_signals w = [] ->
  __exit__ self w = (Raise (KeyError (KSig k)), w).
Proof.
  intros Hdirect Hsm Hrs. unfold __exit__, _remove_signal_handler.
  rewrite Hdirect. step_monad. rewrite Hsm; simpl. step_monad.
  by rewrite Hrs.
Qed.

(** The public methods keep a direct-mode manager consistent and never
    change what teardown will restore. *)
Lemma add_signal_handler_direct_inv self sig h w :
  event_loop self = None ->
  direct_consistent w ->
  exists w',
    add_signal_handler self sig h w = (Ok tt, w') /\
    direct_consistent w' /\
    (forall s, recorded_or_current w' s = recorded_or_current w s) /\
    sig ∈ keys (signal_map w') /\
    (forall s, s ∈ keys (signal_map w) -> s ∈ keys (signal_map w')) /\
    (forall s, s ≠ sig -> os_disposition w' s = os_disposition w s) /\
    (sig ∈ keys (signal_map w) ->
       os_disposition w' sig = os_disposition w sig).
Proof.
  intros Hdirect [Hkeys Hnd].
  destruct (get (signal_map w) sig) as [hs|] eqn:Hget.
  - assert (sig ∈ keys (signal_map w)) as Hin
      by (apply get_Some_keys; eauto).
    eexists. split; [by apply add_signal_handler_present|].
    unfold direct_consistent, recorded_or_current; simpl.
    rewrite keys_set_present by done. repeat split; auto.
  - assert (sig ∉ keys (signal_map w)) as Hnotin by by apply get_None_keys.
    eexists. split; [by apply add_signal_handler_absent_direct|].
    unfold direct_consistent, recorded_or_current; simpl.
    rewrite !keys_set_absent by (by rewrite ?Hkeys).
    repeat split.
    + by rewrite Hkeys.
    + apply NoDup_app. repeat split; [done | | apply NoDup_singleton].
      intros s Hs ->%list_elem_of_singleton. done.
    + intros s. destruct (decide (sig = s)) as [->|Hne].
      * rewrite get_set_eq.
        assert (get (replaced_signals w) s = None) as ->; [|done].
        apply get_None_keys. by rewrite Hkeys.
      * rewrite get_set_ne by done.
        by rewrite decide_False by congruence.
    + apply elem_of_app; right. by apply list_elem_of_singleton.
    + intros s Hs. apply elem_of_app; by left.
    + intros s Hne. by rewrite decide_False.
    + done.
Qed.

Lemma remove_signal_handler_inv self sig h w :
  exists w',
    remove_signal_handler self sig h w = (Ok tt, w') /\
    keys (signal_map w') = keys (signal_map w) /\
    replaced_signals w' = replaced_signals w /\
    os_disposition w' = os_disposition w /\
    loop_watchers w' = loop_watchers w /\
    calls w' = calls w.
Proof.
  destruct (get (signal_map w) sig) as [hs|] eqn:Hget.
  - destruct (decide (h ∈ hs)).
    + eexists. split; [by eapply remove_signal_handler_member|].
      simpl. rewrite keys_set_present; [done|].
      apply get_Some_keys; eauto.
    + eexists. split; [by eapply remove_signal_handler_not_member|done].
  - eexists. split; [by apply remove_signal_handler_absent|done].
Qed.

(** Any sequence of public calls on a direct-mode manager returns, keeps
    the state consistent, registers every signal it adds, and leaves what
    teardown restores unchanged. *)
Lemma run_direct_inv self ops :
  event_loop self = None ->
  forall w, direct_consistent w ->
  exists w',
    run self ops w = (Ok tt, w') /\
    direct_consistent w' /\
    (forall s, recorded_or_current w' s = recorded_or_current w s) /\
    (forall s, s ∈ keys (signal_map w) -> s ∈ keys (signal_map w')) /\
    (forall s h, OpAdd s h ∈ ops -> s ∈ keys (signal_map w')).
Proof.
  intros Hdirect. induction ops as [|o ops IH]; intros w Hinv.
  - exists w. repeat split; try done; try apply Hinv.
    intros s h ?%elem_of_nil. done.
  - assert (exists w1, do_op self o w = (Ok tt, w1) /\ direct_consistent w1 /\
             (forall s, recorded_or_current w1 s = recorded_or_current w s) /\
             (forall s, s ∈ keys (signal_map w) ->
                        s ∈ keys (signal_map w1)) /\
             (forall s h, o = OpAdd s h -> s ∈ keys (signal_map w1)))
      as (w1 & Hstep & Hinv1 & Hrec1 & Hmono1 & Hadd1).
    { destruct o as [sig h|sig h]; simpl.
      - destruct (add_signal_handler_direct_inv self sig h w Hdirect Hinv)
          as (w1 & Hadd & [Hk Hnd] & Hrec & Hin & Hmono & _).
        exists w1. repeat split; try done. congruence.
      - destruct (remove_signal_handler_inv self sig h w)
          as (w1 & ? & Hk & Hr & Ho & _).
        exists w1. unfold direct_consistent, recorded_or_current.
        rewrite Hk, Hr, Ho. repeat split; try done; apply Hinv. }
    destruct (IH w1 Hinv1) as (w' & Hrun & Hinv' & Hrec' & Hmono' & Hadd').
    exists w'. unfold run in *. simpl. unfold bind at 1.
    rewrite Hstep, Hrun. repeat split; try done; try apply Hinv'.
    + intros s. by rewrite Hrec', Hrec1.
    + auto.
    + intros s h [Heq|Hin]%elem_of_cons; eauto.
Qed.

Lemma initial_direct_consistent w :
  signal_map w = PyDict.empty -> replaced_signals w = PyDict.empty ->
  direct_consistent w.
Proof.
  intros Hsm Hrs. unfold direct_consistent. rewrite Hsm, Hrs.
  split; [done | apply NoDup_nil_2].
Qed.

(** ** Construction *)

(** Construction returns a manager and changes nothing in the world: in
    particular it creates no dict of its own. *)
Lemma __init___world self_id arg w :
  exists self, __init__ self_id arg w = (Ok self, w).
Proof.
  unfold __init__, try_except_RuntimeError, get_running_loop, bind, ret.
  destruct arg as [l|]; [by eexists|].
  destruct (running_loop w); by eexists.
Qed.

(** The mode is fixed by the argument or, without one, by the running
    loop; without either the manager is in direct mode. *)
Lemma __init___mode self_id arg w :
  fst (__init__ self_id arg w) =
    Ok (mkSignalManager self_id
          (match arg with Some l => Some l | None => running_loop w end)).
Proof.
  unfold __init__, try_except_RuntimeError, get_running_loop, bind, ret.
  destruct arg as [l|]; [done|]. by destruct (running_loop w).
Qed.

(** C2. A manager constructed after another manager registered a handler
    does not start with an empty registry and override table: both dicts
    belong to the class, and it reads what the first manager wrote. *)
Theorem new_manager_sees_earlier_registrations :
  exists m2 w,
    (m1 <- __init__ 0 None ;;
     add_signal_handler m1 SIGUSR1 1%nat ;;
     __init__ 1 None) (initial_world None) = (Ok m2, w) /\
    self_id m2 = 1%nat /\
    event_loop m2 = None /\
    self_signal_map m2 w = [(SIGUSR1, {[1%nat]})] /\
    self_replaced_signals m2 w = [(SIGUSR1, SIG_DFL)].
Proof. eexists _, _. repeat split. Qed.

(** Sharing across modes: a loop-mode manager registers [SIGTERM], then
    a direct-mode manager registers [SIGUSR1] and is torn down.  Its
    teardown meets the other manager's key first, raises [KeyError], and
    leaves its own trampoline installed for [SIGUSR1]. *)
Example shared_registry_breaks_teardown :
  exists w,
    (add_signal_handler loop_manager SIGTERM 1%nat ;;
     add_signal_handler direct_manager SIGUSR1 2%nat ;;
     __exit__ direct_manager) (initial_world (Some 0%nat))
      = (Raise (KeyError (KSig SIGTERM)), w) /\
    keys (signal_map w) = [SIGTERM; SIGUSR1] /\
    replaced_signals w = [(SIGUSR1, SIG_DFL)] /\
    os_disposition w SIGUSR1 = BoundHandleSignal 0.
Proof. eexists. repeat split. Qed.

(** ** Teardown *)

(** C1. Teardown does not empty the registry: it never writes to it, in
    any state and in either mode.  After [add_signal_handler(SIGUSR1, 1)]
    and teardown on a direct-mode manager the override table is empty and
    the disposition is restored, but the registry still holds the entry. *)
Theorem exit_leaves_registry_entries :
  (forall self w, signal_map (snd (__exit__ self w)) = signal_map w) /\
  exists w1,
    (add_signal_handler direct_manager SIGUSR1 1%nat ;;
     __exit__ direct_manager) (initial_world None) = (Ok tt, w1) /\
    signal_map w1 = [(SIGUSR1, {[1%nat]})] /\
    replaced_signals w1 = [] /\
    os_disposition w1 SIGUSR1 = SIG_DFL.
Proof.
  split; [intros self w; apply __exit___signal_map|].
  eexists. repeat split.
Qed.

(** The same in event-loop mode: the watcher is detached, the registry
    entry stays. *)
Example exit_leaves_registry_entries_loop :
  exists w1,
    (add_signal_handler loop_manager SIGUSR1 1%nat ;;
     __exit__ loop_manager) (initial_world (Some 0%nat)) = (Ok tt, w1) /\
    signal_map w1 = [(SIGUSR1, {[1%nat]})] /\
    loop_watchers w1 0%nat SIGUSR1 = None.
Proof. eexists. repeat split. Qed.

(** What the stale entry costs: registering again after teardown finds
    the signal in the registry and installs no hook, so the handler is
    registered but the process never dispatches to it. *)
Example add_after_exit_installs_nothing :
  exists w1,
    (add_signal_handler direct_manager SIGUSR1 1%nat ;;
     __exit__ direct_manager ;;
     add_signal_handler direct_manager SIGUSR1 2%nat)
      (initial_world None) = (Ok tt, w1) /\
    handlers_of w1 SIGUSR1 = {[1%nat; 2%nat]} /\
    os_disposition w1 SIGUSR1 = SIG_DFL /\
    os_disposition
      (snd (add_signal_handler direct_manager SIGUSR1 1%nat
              (initial_world None))) SIGUSR1 = BoundHandleSignal 0.
Proof. eexists. repeat split. Qed.

(** The round trip of a manager that has the class to itself.  Direct
    mode, a manager that starts with empty dicts: after any calls
    [before], then [add_signal_handler(S, h)], then any calls [after],
    teardown returns and the disposition of [S] is the one in effect
    just before that registration whenever it was the first for [S];
    every signal's disposition is the one it had at the start. *)
Theorem add_then_exit_restores_disposition self w0 before after S h :
  event_loop self = None ->
  signal_map w0 = PyDict.empty ->
  replaced_signals w0 = PyDict.empty ->
  exists w1 w2,
    run self before w0 = (Ok tt, w1) /\
    (run self (OpAdd S h :: after) ;; __exit__ self) w1 = (Ok tt, w2) /\
    (S ∉ keys (signal_map w1) ->
       os_disposition w2 S = os_disposition w1 S) /\
    (forall s, os_disposition w2 s = os_disposition w0 s).
Proof.
  intros Hdirect Hsm Hrs.
  pose proof (initial_direct_consistent w0 Hsm Hrs) as Hinv0.
  destruct (run_direct_inv self before Hdirect w0 Hinv0)
    as (w1 & Hrun1 & Hinv1 & Hrec1 & _).
  destruct (run_direct_inv self (OpAdd S h :: after) Hdirect w1 Hinv1)
    as (w1' & Hrun2 & [Hkeys Hnd] & Hrec2 & _).
  destruct (__exit___direct self w1' Hdirect Hkeys)
    as (w2 & Hexit & _ & _ & Hos & _).
  exists w1, w2. split; [done|]. split.
  { unfold bind. by rewrite Hrun2. }
  assert (forall s, os_disposition w2 s = recorded_or_current w1 s) as Hback.
  { intros s. by rewrite Hos, Hrec2. }
  split.
  - intros Hfirst. rewrite Hback. unfold recorded_or_current.
    destruct Hinv1 as [Hkeys1 _]. rewrite <- Hkeys1 in Hfirst.
    apply get_None_keys in Hfirst. by rewrite Hfirst.
  - intros s. rewrite Hback, Hrec1. unfold recorded_or_current.
    by rewrite Hrs.
Qed.

Lemma add_then_exit_restores_disposition_witness :
  event_loop direct_manager = None /\
  signal_map (initial_world None) = PyDict.empty /\
  replaced_signals (initial_world None) = PyDict.empty /\
  exists w1 w2,
    run direct_manager [OpAdd SIGTERM 2%nat] (initial_world None)
      = (Ok tt, w1) /\
    (run direct_manager [OpAdd SIGUSR1 1%nat; OpRemove SIGUSR1 1%nat] ;;
     __exit__ direct_manager) w1 = (Ok tt, w2) /\
    (SIGUSR1 ∉ keys (signal_map w1) ->
       os_disposition w2 SIGUSR1 = os_disposition w1 SIGUSR1) /\
    (forall s, os_disposition w2 s = os_disposition (initial_world None) s).
Proof.
  repeat split; try reflexivity.
  apply (add_then_exit_restores_disposition direct_manager
           (initial_world None) [OpAdd SIGTERM 2%nat]
           [OpRemove SIGUSR1 1%nat] SIGUSR1 1%nat); reflexivity.
Defined.

(** Without the empty start the round trip is lost.  Direct mode, a
    registry whose first key has no override entry (what an earlier
    teardown leaves), and a signal [S] not yet registered:
    [add_signal_handler(S, h)] installs the trampoline and records the
    disposition, and teardown raises [KeyError] on the stale key before
    it reaches [S], which keeps the trampoline. *)
Lemma add_then_exit_with_stale_key self w k hs sm S h :
  event_loop self = None ->
  signal_map w = (k, hs) :: sm ->
  k ∉ keys (replaced_signals w) ->
  S ∉ keys (signal_map w) ->
  exists w',
    (add_signal_handler self S h ;; __exit__ self) w
      = (Raise (KeyError (KSig k)), w') /\
    os_disposition w' S = BoundHandleSignal (self_id self) /\
    get (replaced_signals w') S = Some (os_disposition w S).
Proof.
  intros Hdirect Hsm Hk HS.
  assert (k ≠ S) as Hne.
  { intros ->. apply HS. rewrite Hsm. simpl. left. }
  apply get_None_keys in HS. apply get_None_keys in Hk.
  eexists. split.
  - unfold bind at 1.
    rewrite (add_signal_handler_absent_direct self S h w Hdirect HS).
    unfold __exit__, _remove_signal_handler. rewrite Hdirect, Hsm.
    step_monad. rewrite decide_False by done. simpl. step_monad.
    rewrite get_set_ne by congruence. by rewrite Hk.
  - simpl. rewrite decide_True by done. by rewrite get_set_eq.
Qed.

(** C3. The round trip fails for a manager constructed after an earlier
    manager's teardown.  The first manager registers [SIGTERM] and is
    torn down; the class registry keeps [SIGTERM].  The second manager,
    in direct mode, registers [SIGUSR1] for the first time, whose
    disposition is [SIG_DFL]; its teardown raises [KeyError] on
    [SIGTERM], and [SIGUSR1] is left with the manager's trampoline. *)
Theorem add_then_exit_after_earlier_teardown :
  exists m2 w1 w2,
    (m1 <- __init__ 0 None ;;
     add_signal_handler m1 SIGTERM 1%nat ;;
     __exit__ m1 ;;
     __init__ 1 None) (initial_world None) = (Ok m2, w1) /\
    event_loop m2 = None /\
    get (signal_map w1) SIGUSR1 = None /\
    os_disposition w1 SIGUSR1 = SIG_DFL /\
    (add_signal_handler m2 SIGUSR1 2%nat ;; __exit__ m2) w1
      = (Raise (KeyError (KSig SIGTERM)), w2) /\
    os_disposition w2 SIGUSR1 = BoundHandleSignal 1.
Proof. eexists _, _, _. repeat split. Qed.

(** C9. Direct mode, a manager that starts with empty dicts and on which
    [add_signal_handler] was called at least once: the first teardown
    returns and leaves a registry key without an override entry, and a
    second teardown raises [KeyError] on it, changing nothing. *)
Theorem second_exit_raises_KeyError self w0 ops S h :
  event_loop self = None ->
  signal_map w0 = PyDict.empty ->
  replaced_signals w0 = PyDict.empty ->
  OpAdd S h ∈ ops ->
  exists w1 k,
    (run self ops ;; __exit__ self) w0 = (Ok tt, w1) /\
    k ∈ keys (signal_map w1) /\
    replaced_signals w1 = [] /\
    __exit__ self w1 = (Raise (KeyError (KSig k)), w1).
Proof.
  intros Hdirect Hsm Hrs Hadd.
  pose proof (initial_direct_consistent w0 Hsm Hrs) as Hinv0.
  destruct (run_direct_inv self ops Hdirect w0 Hinv0)
    as (w' & Hrun & [Hkeys Hnd] & _ & _ & Hreg).
  destruct (__exit___direct self w' Hdirect Hkeys)
    as (w1 & Hexit & Hsm1 & Hrs1 & _).
  specialize (Hreg S h Hadd).
  destruct (signal_map w') as [|[k hs] sm] eqn:Hsm'.
  { by apply elem_of_nil in Hreg. }
  exists w1, k. split.
  { unfold bind. by rewrite Hrun. }
  split; [rewrite Hsm1; simpl; apply list_elem_of_here|].
  split; [done|].
  by apply (__exit___direct_stale self w1 k hs sm).
Qed.

Lemma second_exit_raises_KeyError_witness :
  event_loop direct_manager = None /\
  OpAdd SIGUSR1 1%nat ∈ [OpAdd SIGUSR1 1%nat] /\
  exists w1 k,
    (run direct_manager [OpAdd SIGUSR1 1%nat] ;; __exit__ direct_manager)
      (initial_world None) = (Ok tt, w1) /\
    k ∈ keys (signal_map w1) /\
    replaced_signals w1 = [] /\
    __exit__ direct_manager w1 = (Raise (KeyError (KSig k)), w1).
Proof.
  split; [reflexivity|]. split; [compute_done|].
  apply (second_exit_raises_KeyError direct_manager (initial_world None)
           [OpAdd SIGUSR1 1%nat] SIGUSR1 1%nat);
    first [reflexivity | compute_done].
Defined.

(** The second teardown on the concrete run: the key is [SIGUSR1]. *)
Example second_exit_SIGUSR1 :
  let w1 := snd ((add_signal_handler direct_manager SIGUSR1 1%nat ;;
                  __exit__ direct_manager) (initial_world None)) in
  fst (__exit__ direct_manager w1) = Raise (KeyError (KSig SIGUSR1)).
Proof. reflexivity. Qed.

(** ** Removal *)

(** C4. [remove_signal_handler] returns normally in every state.  Without
    a registry entry for the signal, or with a handler that is not in
    its set, the world is unchanged; otherwise the set loses exactly the
    handler, and nothing else changes. *)
Theorem remove_signal_handler_never_raises self sig h w :
  exists w',
    remove_signal_handler self sig h w = (Ok tt, w') /\
    (get (signal_map w) sig = None -> w' = w) /\
    (forall hs, get (signal_map w) sig = Some hs -> h ∉ hs -> w' = w) /\
    (forall hs, get (signal_map w) sig = Some hs -> h ∈ hs ->
       get (signal_map w') sig = Some (hs ∖ {[h]}) /\
       (forall s, s ≠ sig -> get (signal_map w') s = get (signal_map w) s) /\
       keys (signal_map w') = keys (signal_map w) /\
       replaced_signals w' = replaced_signals w /\
       os_disposition w' = os_disposition w /\
       loop_watchers w' = loop_watchers w /\
       running_loop w' = running_loop w /\
       calls w' = calls w).
Proof.
  destruct (get (signal_map w) sig) as [hs|] eqn:Hget.
  - destruct (decide (h ∈ hs)) as [Hin|Hnotin].
    + eexists. split; [by eapply remove_signal_handler_member|].
      split; [done|]. split; [by intros ? [= <-] ?|].
      intros ? [= <-] _. simpl.
      rewrite get_set_eq, keys_set_present by (apply get_Some_keys; eauto).
      repeat split; try done. intros s Hne. by apply get_set_ne.
    + exists w. split; [by eapply remove_signal_handler_not_member|].
      split; [done|]. split; [done|]. by intros ? [= <-] ?.
  - exists w. split; [by apply remove_signal_handler_absent|].
    by repeat split.
Qed.

(** C8. [remove_signal_handler] keeps every registry key, the override
    table, the dispositions and the watchers, in every state; when it
    removes the only handler of a signal, the signal stays in the
    registry with an empty set. *)
Theorem remove_signal_handler_keeps_hook self sig h w :
  let w' := snd (remove_signal_handler self sig h w) in
  keys (signal_map w') = keys (signal_map w) /\
  replaced_signals w' = replaced_signals w /\
  os_disposition w' = os_disposition w /\
  loop_watchers w' = loop_watchers w /\
  (get (signal_map w) sig = Some {[h]} -> get (signal_map w') sig = Some ∅).
Proof.
  destruct (remove_signal_handler_inv self sig h w)
    as (w' & Hrun & Hkeys & Hrs & Hos & Hlw & _).
  rewrite Hrun; simpl. repeat split; try done.
  intros Hget.
  rewrite (remove_signal_handler_member self sig h w {[h]} Hget) in Hrun
    by (by apply elem_of_singleton).
  injection Hrun as <-. simpl. by rewrite get_set_eq, difference_diag_L.
Qed.

(** Removal from a signal nobody registered, and of a handler that is
    not registered, in a world where [SIGUSR1] has handlers 1, 2, 3. *)
Example remove_unknown_signal :
  remove_signal_handler direct_manager SIGTERM 1%nat three_handlers
    = (Ok tt, three_handlers).
Proof. reflexivity. Qed.

Example remove_unknown_handler :
  remove_signal_handler direct_manager SIGUSR1 4%nat three_handlers
    = (Ok tt, three_handlers).
Proof. reflexivity. Qed.

Example remove_known_handler :
  handlers_of
    (snd (remove_signal_handler direct_manager SIGUSR1 2%nat three_handlers))
    SIGUSR1 = {[1%nat; 3%nat]}.
Proof. reflexivity. Qed.

(** Removing the last handler of [SIGUSR1] in direct mode: the key, the
    override entry and the installed trampoline all stay. *)
Example remove_last_handler_keeps_hook :
  let w1 := snd ((add_signal_handler direct_manager SIGUSR1 1%nat ;;
                  remove_signal_handler direct_manager SIGUSR1 1%nat)
                   (initial_world None)) in
  signal_map w1 = [(SIGUSR1, ∅)] /\
  replaced_signals w1 = [(SIGUSR1, SIG_DFL)] /\
  os_disposition w1 SIGUSR1 = BoundHandleSignal 0.
Proof. repeat split. Qed.

(** ** Dispatch *)

Lemma with_calls_with_calls cs cs' w :
  with_calls cs (with_calls cs' w) = with_calls cs w.
Proof. done. Qed.

Lemma times_called_map h sig fr (l : list handler) :
  NoDup l ->
  times_called h sig fr (map (fun g => (g, sig, fr)) l) =
    if decide (h ∈ l) then 1 else 0.
Proof.
  induction 1 as [|g l Hg Hnd IH]; [done|].
  cbn [map times_called]. rewrite IH.
  rewrite (decide_ext (h ∈ g :: l) (h = g ∨ h ∈ l)) by apply elem_of_cons.
  destruct (decide (g = h)) as [->|Hne].
  - rewrite decide_True by done. rewrite decide_False by done.
    by rewrite decide_True by by left.
  - rewrite decide_False by congruence.
    destruct (decide (h ∈ l)).
    + by rewrite decide_True by by right.
    + rewrite decide_False; [done|]. intros [?|?]; congruence.
Qed.

Section dispatch_facts.
Variable handler_body : handler -> signo -> frame -> option exn.
Variable set_iter : gset handler -> list handler.
Hypothesis set_iter_perm : forall hs, set_iter hs ≡ₚ elements hs.

Lemma set_iter_NoDup hs : NoDup (set_iter hs).
Proof. rewrite set_iter_perm. apply NoDup_elements. Qed.

Lemma elem_of_set_iter hs h : h ∈ set_iter hs <-> h ∈ hs.
Proof. rewrite set_iter_perm. apply elem_of_elements. Qed.

(** The loop of [_handle_signal]: it ends as [fan_out_result] says and
    records exactly the calls to the handlers in [invoked]. *)
Lemma for_each_call_handler sig fr hs w :
  for_each hs (fun h => call_handler handler_body h sig fr) w =
    (fan_out_result handler_body sig fr hs,
     with_calls
       (calls w ++
        map (fun h => (h, sig, fr)) (invoked handler_body sig fr hs)) w).
Proof.
  revert w. induction hs as [|h hs IH]; intros w; simpl.
  - by rewrite app_nil_r, with_calls_id.
  - unfold bind at 1, call_handler at 1, bind at 1, modify, ret, raise.
    destruct (handler_body h sig fr) as [e|]; simpl; [done|].
    rewrite IH. simpl. by rewrite <- app_assoc.
Qed.

Lemma _handle_signal_registered self sig fr w hs :
  get (signal_map w) sig = Some hs ->
  _handle_signal handler_body set_iter self sig fr w =
    (fan_out_result handler_body sig fr (set_iter hs),
     with_calls
       (calls w ++
        map (fun h => (h, sig, fr))
          (invoked handler_body sig fr (set_iter hs))) w).
Proof.
  intros Hget. unfold _handle_signal, bind, signal_map_getitem.
  rewrite Hget. apply for_each_call_handler.
Qed.

Lemma _handle_signal_unregistered self sig fr w :
  get (signal_map w) sig = None ->
  _handle_signal handler_body set_iter self sig fr w
    = (Raise (KeyError (KSig sig)), w).
Proof.
  intros Hget. unfold _handle_signal, bind, signal_map_getitem.
  by rewrite Hget.
Qed.

Lemma delivered_registered self sig fr w hs :
  get (signal_map w) sig = Some hs ->
  delivered handler_body set_iter self sig fr w =
    map (fun h => (h, sig, fr)) (invoked handler_body sig fr (set_iter hs)).
Proof.
  intros Hget. unfold delivered.
  rewrite (_handle_signal_registered self sig fr w hs Hget). simpl.
  by rewrite drop_app_length.
Qed.

(** Handlers that return normally are all reached. *)
Lemma invoked_all_return sig fr hs :
  (forall g, g ∈ hs -> handler_body g sig fr = None) ->
  invoked handler_body sig fr hs = hs /\
  fan_out_result handler_body sig fr hs = Ok tt.
Proof.
  induction hs as [|h hs IH]; intros Hquiet; simpl; [done|].
  rewrite (Hquiet h) by left.
  destruct IH as [-> ->]; [|done]. intros g Hg. apply Hquiet. by right.
Qed.

(** Past a prefix of handlers that return normally, the fan-out goes on
    with the rest. *)
Lemma invoked_app sig fr pre hs :
  (forall g, g ∈ pre -> handler_body g sig fr = None) ->
  invoked handler_body sig fr (pre ++ hs)
    = pre ++ invoked handler_body sig fr hs /\
  fan_out_result handler_body sig fr (pre ++ hs)
    = fan_out_result handler_body sig fr hs.
Proof.
  induction pre as [|h pre IH]; intros Hquiet; simpl; [done|].
  rewrite (Hquiet h) by left.
  destruct IH as [-> ->]; [|done]. intros g Hg. apply Hquiet. by right.
Qed.

(** The handlers reached are an initial segment of the iteration. *)
Lemma invoked_prefix sig fr hs : invoked handler_body sig fr hs `prefix_of` hs.
Proof.
  induction hs as [|h hs IH]; simpl; [done|].
  destruct (handler_body h sig fr).
  - apply prefix_cons, prefix_nil.
  - by apply prefix_cons.
Qed.

Lemma invoked_NoDup sig fr hs :
  NoDup hs -> NoDup (invoked handler_body sig fr hs).
Proof.
  intros Hnd. destruct (invoked_prefix sig fr hs) as [rest Hrest].
  rewrite Hrest in Hnd. by apply NoDup_app in Hnd as [? _].
Qed.

(** After [add_signal_handler(sig, h)] the set of [sig] is the earlier
    set with [h] added; no handler is invoked. *)
Lemma add_signal_handler_handlers self sig h w :
  exists w',
    add_signal_handler self sig h w = (Ok tt, w') /\
    get (signal_map w') sig = Some (handlers_of w sig ∪ {[h]}) /\
    calls w' = calls w.
Proof.
  unfold handlers_of.
  destruct (get (signal_map w) sig) as [hs|] eqn:Hget; simpl.
  - eexists. split; [by apply add_signal_handler_present|].
    simpl. by rewrite get_set_eq.
  - rewrite (left_id_L ∅ (∪)).
    destruct (event_loop self) as [l|] eqn:Hmode; eexists.
    + split; [by apply add_signal_handler_absent_loop|].
      simpl. by rewrite get_set_eq.
    + split; [by apply add_signal_handler_absent_direct|].
      simpl. by rewrite get_set_eq.
Qed.

(** C5. Calling [add_signal_handler(sig, h)] twice gives the result and
    the state of calling it once.  A delivery of [sig] after that
    invokes [h] at most once, and exactly once when no other handler
    registered for [sig] raises. *)
Theorem add_signal_handler_idempotent self sig h fr w :
  (add_signal_handler self sig h ;; add_signal_handler self sig h) w
    = add_signal_handler self sig h w /\
  let w1 := snd (add_signal_handler self sig h w) in
  times_called h sig fr (delivered handler_body set_iter self sig fr w1) <= 1 /\
  ((forall g, g ∈ handlers_of w1 sig -> g ≠ h ->
      handler_body g sig fr = None) ->
   times_called h sig fr (delivered handler_body set_iter self sig fr w1) = 1).
Proof.
  destruct (add_signal_handler_handlers self sig h w)
    as (w1 & Hadd & Hget & _).
  set (hs := handlers_of w sig ∪ {[h]}) in *.
  assert (h ∈ hs) as Hin by (apply elem_of_union_r, elem_of_singleton; done).
  split.
  - unfold bind. rewrite Hadd.
    rewrite (add_signal_handler_present self sig h w1 hs Hget).
    rewrite (comm_L (∪) hs {[h]}).
    rewrite (subseteq_union_1_L {[h]} hs) by (by apply singleton_subseteq_l).
    by rewrite (set_get_id _ _ _ Hget), with_signal_map_id.
  - rewrite Hadd. simpl.
    rewrite (delivered_registered self sig fr w1 hs Hget).
    rewrite times_called_map by apply invoked_NoDup, set_iter_NoDup.
    split; [case_decide; lia|].
    intros Hquiet. apply decide_True.
    assert (h ∈ set_iter hs) as Hiter by by apply elem_of_set_iter.
    apply list_elem_of_split in Hiter as (pre & post & Hsplit).
    pose proof (set_iter_NoDup hs) as Hnd. rewrite Hsplit in Hnd.
    apply NoDup_app in Hnd as (_ & Hpre & _).
    rewrite Hsplit.
    destruct (invoked_app sig fr pre (h :: post)) as [-> _].
    { intros g Hg. apply Hquiet.
      - unfold handlers_of. rewrite Hget. simpl.
        apply elem_of_set_iter. rewrite Hsplit. apply elem_of_app; by left.
      - intros ->. apply (Hpre h Hg). left. }
    apply elem_of_app; right. simpl. left.
Qed.
(** C6. One call of [_handle_signal] for a registered signal whose
    handlers all return normally: it returns, and the calls it makes are
    the handlers of the signal's set, each once, with [(sig, fr)], in the
    order of the iteration.  From a state without an entry for [sig]:
    after registering two distinct handlers both are called once; after
    then removing the first, only the second is called. *)
Theorem handle_signal_calls_each_handler_once self sig fr w :
  (forall hs,
     get (signal_map w) sig = Some hs ->
     (forall g, g ∈ hs -> handler_body g sig fr = None) ->
     _handle_signal handler_body set_iter self sig fr w =
       (Ok tt,
        with_calls
          (calls w ++ delivered handler_body set_iter self sig fr w) w) /\
     delivered handler_body set_iter self sig fr w
       ≡ₚ map (fun g => (g, sig, fr)) (elements hs) /\
     (forall g,
        times_called g sig fr (delivered handler_body set_iter self sig fr w)
          = if decide (g ∈ hs) then 1 else 0)) /\
  (forall h1 h2,
     get (signal_map w) sig = None ->
     handler_body h1 sig fr = None ->
     handler_body h2 sig fr = None ->
     h1 ≠ h2 ->
     let w2 := snd ((add_signal_handler self sig h1 ;;
                     add_signal_handler self sig h2) w) in
     let w3 := snd (remove_signal_handler self sig h1 w2) in
     delivered handler_body set_iter self sig fr w2
       ≡ₚ [(h1, sig, fr); (h2, sig, fr)] /\
     delivered handler_body set_iter self sig fr w3 = [(h2, sig, fr)]).
Proof.
  split.
  - intros hs Hget Hquiet.
    rewrite (delivered_registered self sig fr w hs Hget).
    rewrite (_handle_signal_registered self sig fr w hs Hget).
    destruct (invoked_all_return sig fr (set_iter hs)) as [-> ->].
    { intros g Hg. by apply Hquiet, elem_of_set_iter. }
    split; [done|]. split; [by rewrite set_iter_perm|].
    intros g. rewrite times_called_map by apply set_iter_NoDup.
    apply decide_ext, elem_of_set_iter.
  - intros h1 h2 Hnone Hq1 Hq2 Hne.
    destruct (add_signal_handler_handlers self sig h1 w)
      as (w1 & Hadd1 & Hget1 & _).
    destruct (add_signal_handler_handlers self sig h2 w1)
      as (w2 & Hadd2 & Hget2 & _).
    unfold handlers_of in Hget1, Hget2. rewrite Hget1 in Hget2.
    rewrite Hnone in Hget1, Hget2. simpl in Hget1, Hget2.
    rewrite (left_id_L ∅ (∪)) in Hget1, Hget2.
    unfold bind at 1. rewrite Hadd1, Hadd2. simpl.
    assert (forall g, g ∈ ({[h1]} ∪ {[h2]} : gset handler) ->
              handler_body g sig fr = None) as Hquiet.
    { intros g [->%elem_of_singleton| ->%elem_of_singleton]%elem_of_union;
        done. }
    split.
    + rewrite (delivered_registered self sig fr w2 _ Hget2).
      destruct (invoked_all_return sig fr (set_iter ({[h1]} ∪ {[h2]})))
        as [-> _].
      { intros g Hg. by apply Hquiet, elem_of_set_iter. }
      rewrite set_iter_perm, elements_union_singleton, elements_singleton.
      * done.
      * by intros ?%elem_of_singleton.
    + rewrite (remove_signal_handler_member self sig h1 w2 _ Hget2)
        by (apply elem_of_union_l, elem_of_singleton; done).
      simpl.
      assert (({[h1]} ∪ {[h2]}) ∖ {[h1]} = ({[h2]} : gset handler)) as Hset.
      { apply set_eq. intros g.
        rewrite elem_of_difference, elem_of_union, !elem_of_singleton.
        split; [intros [[?|?] ?]; congruence | intros ->; split; auto]. }
      rewrite Hset.
      rewrite (delivered_registered self sig fr _ {[h2]})
        by (simpl; apply get_set_eq).
      destruct (invoked_all_return sig fr (set_iter {[h2]})) as [-> _].
      { intros g ->%elem_of_set_iter%elem_of_singleton. done. }
      pose proof (set_iter_perm {[h2]}) as Hperm.
      rewrite elements_singleton in Hperm.
      apply Permutation_singleton_r in Hperm. by rewrite Hperm.
Qed.

(** C7. When the iteration over the set of [sig] reaches a handler that
    raises, after handlers that returned normally: [_handle_signal]
    raises that exception, it has called the handlers up to and
    including the raising one, and no handler later in the iteration is
    called. *)
Theorem handler_error_aborts_fan_out self sig fr w hs pre h post e :
  get (signal_map w) sig = Some hs ->
  set_iter hs = pre ++ h :: post ->
  (forall g, g ∈ pre -> handler_body g sig fr = None) ->
  handler_body h sig fr = Some e ->
  _handle_signal handler_body set_iter self sig fr w =
    (Raise e,
     with_calls (calls w ++ map (fun g => (g, sig, fr)) (pre ++ [h])) w) /\
  delivered handler_body set_iter self sig fr w
    = map (fun g => (g, sig, fr)) (pre ++ [h]) /\
  (forall g, g ∈ post ->
     times_called g sig fr (delivered handler_body set_iter self sig fr w)
       = 0).
Proof.
  intros Hget Hsplit Hquiet Hraise.
  rewrite (delivered_registered self sig fr w hs Hget).
  rewrite (_handle_signal_registered self sig fr w hs Hget).
  pose proof (set_iter_NoDup hs) as Hnd. rewrite Hsplit in *.
  destruct (invoked_app sig fr pre (h :: post) Hquiet) as [-> ->].
  simpl. rewrite Hraise. repeat split; try done.
  intros g Hg. apply NoDup_app in Hnd as (Hnd1 & Hdisj & Hnd2).
  apply NoDup_cons in Hnd2 as [Hh Hnd2].
  rewrite times_called_map.
  - apply decide_False. intros [Hpre|Hgh%list_elem_of_singleton]%elem_of_app.
    + apply (Hdisj g Hpre). by right.
    + congruence.
  - apply NoDup_app. repeat split; [done| |apply NoDup_singleton].
    intros x Hx ->%list_elem_of_singleton. apply (Hdisj h Hx). left.
Qed.

(** C10. [_handle_signal] for a signal without a registry entry raises
    [KeyError] for that signal, calls nothing and changes nothing.  The
    lookup succeeds exactly for the registry keys, and then the call is
    the fan-out over the signal's set. *)
Theorem handle_signal_unregistered_raises self sig fr w :
  (sig ∉ keys (signal_map w) ->
     _handle_signal handler_body set_iter self sig fr w
       = (Raise (KeyError (KSig sig)), w)) /\
  (sig ∈ keys (signal_map w) <->
     exists hs, signal_map_getitem sig w = (Ok hs, w)) /\
  (sig ∉ keys (signal_map w) <->
     signal_map_getitem sig w = (Raise (KeyError (KSig sig)), w)) /\
  (forall hs, get (signal_map w) sig = Some hs ->
     _handle_signal handler_body set_iter self sig fr w
       = for_each (set_iter hs)
           (fun h => call_handler handler_body h sig fr) w).
Proof.
  rewrite <- !get_None_keys, <- get_Some_keys.
  unfold _handle_signal, bind, signal_map_getitem.
  destruct (get (signal_map w) sig) as [hs|]; repeat split; try done.
  - intros _. by exists hs.
  - by intros ? [= <-].
  - by intros [? [=]].
Qed.
End dispatch_facts.

(** ** Instances of the dispatch properties *)

(** [elements] is one admissible iteration order. *)
Lemma elements_is_iteration (hs : gset handler) :
  elements hs ≡ₚ elements hs.
Proof. reflexivity. Qed.

Lemma add_signal_handler_idempotent_witness :
  (forall hs : gset handler, elements hs ≡ₚ elements hs) /\
  (add_signal_handler direct_manager SIGUSR1 1%nat ;;
   add_signal_handler direct_manager SIGUSR1 1%nat) (initial_world None)
    = add_signal_handler direct_manager SIGUSR1 1%nat (initial_world None) /\
  let w1 := snd (add_signal_handler direct_manager SIGUSR1 1%nat
                   (initial_world None)) in
  times_called 1%nat SIGUSR1 None
    (delivered quiet_handlers elements direct_manager SIGUSR1 None w1) <= 1 /\
  ((forall g, g ∈ handlers_of w1 SIGUSR1 -> g ≠ 1%nat ->
      quiet_handlers g SIGUSR1 None = None) ->
   times_called 1%nat SIGUSR1 None
     (delivered quiet_handlers elements direct_manager SIGUSR1 None w1) = 1).
Proof.
  split; [reflexivity|].
  apply (add_signal_handler_idempotent quiet_handlers elements
           elements_is_iteration
           direct_manager SIGUSR1 1%nat None (initial_world None)).
Defined.

(** Registered twice, called once. *)
Example add_twice_deliver_once :
  let w2 := snd ((add_signal_handler direct_manager SIGUSR1 1%nat ;;
                  add_signal_handler direct_manager SIGUSR1 1%nat)
                   (initial_world None)) in
  _handle_signal quiet_handlers elements direct_manager SIGUSR1 (Some 0%nat) w2
    = (Ok tt, with_calls [(1%nat, SIGUSR1, Some 0%nat)] w2).
Proof. reflexivity. Qed.

Lemma handle_signal_calls_each_handler_once_witness :
  (forall hs : gset handler, elements hs ≡ₚ elements hs) /\
  get (signal_map (initial_world None)) SIGUSR1 = None /\
  quiet_handlers 1%nat SIGUSR1 None = None /\
  quiet_handlers 2%nat SIGUSR1 None = None /\
  1%nat ≠ 2%nat /\
  let w2 := snd ((add_signal_handler direct_manager SIGUSR1 1%nat ;;
                  add_signal_handler direct_manager SIGUSR1 2%nat)
                   (initial_world None)) in
  let w3 := snd (remove_signal_handler direct_manager SIGUSR1 1%nat w2) in
  delivered quiet_handlers elements direct_manager SIGUSR1 None w2
    ≡ₚ [(1%nat, SIGUSR1, None); (2%nat, SIGUSR1, None)] /\
  delivered quiet_handlers elements direct_manager SIGUSR1 None w3
    = [(2%nat, SIGUSR1, None)].
Proof.
  split; [reflexivity|]. split; [reflexivity|]. split; [reflexivity|].
  split; [reflexivity|]. split; [lia|].
  apply (proj2 (handle_signal_calls_each_handler_once quiet_handlers elements
                  elements_is_iteration
                  direct_manager SIGUSR1 None (initial_world None)));
    first [reflexivity | lia].
Defined.

Lemma handler_error_aborts_fan_out_witness :
  (forall hs : gset handler, elements hs ≡ₚ elements hs) /\
  get (signal_map three_handlers) SIGUSR1 = Some {[1%nat; 2%nat; 3%nat]} /\
  elements ({[1%nat; 2%nat; 3%nat]} : gset handler)
    = [2%nat] ++ 3%nat :: [1%nat] /\
  (forall g, g ∈ [2%nat] -> handler_3_raises g SIGUSR1 None = None) /\
  handler_3_raises 3%nat SIGUSR1 None = Some (HandlerError 1) /\
  _handle_signal handler_3_raises elements direct_manager SIGUSR1 None
      three_handlers
    = (Raise (HandlerError 1),
       with_calls [(2%nat, SIGUSR1, None); (3%nat, SIGUSR1, None)]
         three_handlers) /\
  times_called 1%nat SIGUSR1 None
    (delivered handler_3_raises elements direct_manager SIGUSR1 None
       three_handlers) = 0.
Proof.
  assert (get (signal_map three_handlers) SIGUSR1
            = Some {[1%nat; 2%nat; 3%nat]}) as Hget by reflexivity.
  assert (elements ({[1%nat; 2%nat; 3%nat]} : gset handler)
            = [2%nat] ++ 3%nat :: [1%nat]) as Hiter by reflexivity.
  assert (forall g, g ∈ [2%nat] -> handler_3_raises g SIGUSR1 None = None)
    as Hpre.
  { intros g Hg. apply list_elem_of_singleton in Hg. subst g. reflexivity. }
  assert (handler_3_raises 3%nat SIGUSR1 None = Some (HandlerError 1))
    as Hraise by reflexivity.
  do 5 (split; [assumption || exact elements_is_iteration|]).
  destruct (handler_error_aborts_fan_out handler_3_raises elements
              elements_is_iteration direct_manager SIGUSR1 None
              three_handlers {[1%nat; 2%nat; 3%nat]} [2%nat] 3%nat [1%nat]
              (HandlerError 1) Hget Hiter Hpre Hraise)
    as (Hrun & _ & Hpost).
  split; [exact Hrun|]. apply Hpost. compute_done.
Defined.

(** Dispatch for a signal nobody registered, in the initial world. *)
Example handle_signal_SIGTERM_unregistered :
  _handle_signal quiet_handlers elements direct_manager SIGTERM None
      three_handlers
    = (Raise (KeyError (KSig SIGTERM)), three_handlers).
Proof. reflexivity. Qed.

(** * Further properties of the class *)

(** ** Deleting from a dict *)

Lemma get_del_ne {V} (d : dict V) k k' : k ≠ k' -> get (del d k) k' = get d k'.
Proof.
  intros Hne. induction d as [|[k0 v0] d IH]; simpl; [done|].
  case_decide; subst; simpl.
  - by rewrite decide_False.
  - by rewrite IH.
Qed.

Lemma keys_del_sublist {V} (d : dict V) k : keys (del d k) `sublist_of` keys d.
Proof.
  induction d as [|[k0 v0] d IH]; simpl; [done|].
  case_decide; simpl.
  - by apply sublist_cons.
  - by apply sublist_skip.
Qed.

Lemma get_del_eq {V} (d : dict V) k : NoDup (keys d) -> get (del d k) k = None.
Proof.
  induction d as [|[k0 v0] d IH]; simpl; [done|].
  intros [Hk0 Hnd]%NoDup_cons. case_decide; subst; simpl.
  - by apply get_None_keys.
  - rewrite decide_False by done. by apply IH.
Qed.

Lemma keys_set_cases {V} (d : dict V) k v :
  keys (set d k v) = if decide (k ∈ keys d) then keys d else keys d ++ [k].
Proof.
  case_decide; [by apply keys_set_present | by apply keys_set_absent].
Qed.

(** ** Construction *)

(** X1. Construction never raises and leaves the world as it is.  The
    manager is bound to the loop given as argument, else to the running
    loop, else to none: the [RuntimeError] of a missing running loop is
    caught and means direct mode. *)
Theorem init_returns_manager oid arg w :
  exists self,
    __init__ oid arg w = (Ok self, w) /\
    self_id self = oid /\
    event_loop self =
      match arg with Some l => Some l | None => running_loop w end.
Proof.
  unfold __init__, try_except_RuntimeError, get_running_loop, bind, ret.
  destruct arg as [l|]; [by eexists|].
  destruct (running_loop w); by eexists.
Qed.

(** ** Registration of a registered signal *)

(** X2. For a signal that already has a registry entry,
    [add_signal_handler] on any instance only adds the handler to the
    signal's set: no hook is installed a second time, and the recorded
    disposition, the process dispositions and the watchers stay. *)
Theorem add_registered_installs_nothing self sig h w :
  sig ∈ keys (signal_map w) ->
  exists w',
    add_signal_handler self sig h w = (Ok tt, w') /\
    get (signal_map w') sig = Some (handlers_of w sig ∪ {[h]}) /\
    (forall s, s ≠ sig -> get (signal_map w') s = get (signal_map w) s) /\
    keys (signal_map w') = keys (signal_map w) /\
    replaced_signals w' = replaced_signals w /\
    os_disposition w' = os_disposition w /\
    loop_watchers w' = loop_watchers w /\
    calls w' = calls w.
Proof.
  intros Hin. pose proof Hin as [hs Hget]%get_Some_keys.
  eexists. split; [by apply add_signal_handler_present|].
  unfold handlers_of. rewrite Hget. simpl.
  rewrite get_set_eq, keys_set_present by done.
  repeat split; try done. intros s Hne. by apply get_set_ne.
Qed.

Lemma add_registered_installs_nothing_witness :
  SIGUSR1 ∈ keys (signal_map three_handlers) /\
  exists w',
    add_signal_handler loop_manager SIGUSR1 4%nat three_handlers
      = (Ok tt, w') /\
    get (signal_map w') SIGUSR1
      = Some (handlers_of three_handlers SIGUSR1 ∪ {[4%nat]}) /\
    (forall s, s ≠ SIGUSR1 ->
       get (signal_map w') s = get (signal_map three_handlers) s) /\
    keys (signal_map w') = keys (signal_map three_handlers) /\
    replaced_signals w' = replaced_signals three_handlers /\
    os_disposition w' = os_disposition three_handlers /\
    loop_watchers w' = loop_watchers three_handlers /\
    calls w' = calls three_handlers.
Proof.
  split; [compute_done|].
  apply (add_registered_installs_nothing loop_manager SIGUSR1 4%nat
           three_handlers). compute_done.
Defined.

(** X3. On a registered signal, adding a handler that is not in the set
    and removing it again gives back the very same world. *)
Theorem add_then_remove_new_handler self sig h w :
  sig ∈ keys (signal_map w) ->
  h ∉ handlers_of w sig ->
  (add_signal_handler self sig h ;; remove_signal_handler self sig h) w
    = (Ok tt, w).
Proof.
  intros [hs Hget]%get_Some_keys Hnotin.
  unfold handlers_of in Hnotin. rewrite Hget in Hnotin. simpl in Hnotin.
  unfold bind. rewrite (add_signal_handler_present self sig h w hs Hget).
  rewrite (remove_signal_handler_member self sig h _ (hs ∪ {[h]}))
    by first [apply get_set_eq | by apply elem_of_union_r, elem_of_singleton].
  simpl. rewrite set_set.
  assert ((hs ∪ {[h]}) ∖ {[h]} = hs) as ->.
  { apply set_eq. intros g.
    rewrite elem_of_difference, elem_of_union, elem_of_singleton.
    split; [by intros [[?|?] ?] | intros ?; split; [by left|congruence]]. }
  rewrite (set_get_id _ _ _ Hget). by destruct w.
Qed.

Lemma add_then_remove_new_handler_witness :
  SIGUSR1 ∈ keys (signal_map three_handlers) /\
  (4%nat ∉ handlers_of three_handlers SIGUSR1) /\
  ((add_signal_handler direct_manager SIGUSR1 4%nat ;;
    remove_signal_handler direct_manager SIGUSR1 4%nat) three_handlers
     = (Ok tt, three_handlers)).
Proof.
  split; [compute_done|]. split; [compute_done|].
  apply (add_then_remove_new_handler direct_manager SIGUSR1 4%nat
           three_handlers); compute_done.
Defined.

(** ** Public calls and the handler sets *)

(** What a public call does to the registry, entry by entry. *)
Lemma do_op_registry self o w :
  exists w',
    do_op self o w = (Ok tt, w') /\
    (forall s, s ≠ op_signal o ->
       get (signal_map w') s = get (signal_map w) s) /\
    handlers_of w' (op_signal o) =
      match o with
      | OpAdd _ h => handlers_of w (op_signal o) ∪ {[h]}
      | OpRemove _ h => handlers_of w (op_signal o) ∖ {[h]}
      end /\
    calls w' = calls w.
Proof.
  destruct o as [sig h|sig h]; simpl; unfold handlers_of.
  - destruct (get (signal_map w) sig) as [hs|] eqn:Hget.
    + eexists. split; [by apply add_signal_handler_present|]. simpl.
      rewrite get_set_eq. repeat split; try done.
      intros s Hne. by apply get_set_ne.
    + destruct (event_loop self) as [l|] eqn:Hmode; eexists.
      * split; [by apply add_signal_handler_absent_loop|]. simpl.
        rewrite get_set_eq, (left_id_L ∅ (∪)). repeat split; try done.
        intros s Hne. by apply get_set_ne.
      * split; [by apply add_signal_handler_absent_direct|]. simpl.
        rewrite get_set_eq, (left_id_L ∅ (∪)). repeat split; try done.
        intros s Hne. by apply get_set_ne.
  - destruct (get (signal_map w) sig) as [hs|] eqn:Hget.
    + destruct (decide (h ∈ hs)) as [Hin|Hnotin].
      * eexists. split; [by eapply remove_signal_handler_member|]. simpl.
        rewrite get_set_eq. repeat split; try done.
        intros s Hne. by apply get_set_ne.
      * exists w. split; [by eapply remove_signal_handler_not_member|].
        rewrite Hget. simpl. repeat split; try done.
        symmetry. apply set_eq. intros g.
        rewrite elem_of_difference, elem_of_singleton.
        split; [by intros [? ?] | intros ?; split; [done|congruence]].
    + exists w. split; [by apply remove_signal_handler_absent|].
      rewrite Hget. simpl. repeat split; try done.
      by rewrite difference_disjoint_L by apply disjoint_empty_l.
Qed.

Lemma handlers_of_ext w w' s :
  get (signal_map w') s = get (signal_map w) s ->
  handlers_of w' s = handlers_of w s.
Proof. unfold handlers_of. by intros ->. Qed.

(** X4. A sequence of public calls never raises, and afterwards a
    handler is registered for a signal exactly when the last call that
    named the pair was an [add_signal_handler] (or, if none named it,
    when it was registered before): registrations are not counted. *)
Theorem run_last_call_decides self ops w :
  exists w',
    run self ops w = (Ok tt, w') /\
    forall sig h,
      h ∈ handlers_of w' sig <->
      registered_after ops sig h (bool_decide (h ∈ handlers_of w sig)) = true.
Proof.
  revert w. induction ops as [|o ops IH]; intros w.
  - exists w. split; [done|]. intros sig h. simpl.
    by rewrite bool_decide_eq_true.
  - destruct (do_op_registry self o w) as (w1 & Hstep & Hother & Hsig & _).
    destruct (IH w1) as (w' & Hrun & Hreg).
    exists w'. split.
    { unfold run in *. simpl. unfold bind at 1. by rewrite Hstep. }
    intros sig h. rewrite Hreg.
    assert (forall b b' : bool, b = b' ->
              registered_after ops sig h b = true <->
              registered_after ops sig h b' = true) as Hcongr
      by (by intros ? ? ->).
    destruct (decide (op_signal o = sig)) as [Heq|Hne].
    + destruct o as [s g|s g]; simpl in *; subst s; apply Hcongr;
        rewrite Hsig.
      * destruct (decide (g = h)) as [->|Hgh].
        -- rewrite decide_True by done. apply bool_decide_eq_true.
           by apply elem_of_union_r, elem_of_singleton.
        -- rewrite decide_False by (intros [_ ?]; done).
           apply bool_decide_ext.
           rewrite elem_of_union, elem_of_singleton.
           split; [intros [?|?]; [done|congruence] | by left].
      * destruct (decide (g = h)) as [->|Hgh].
        -- rewrite decide_True by done. apply bool_decide_eq_false.
           rewrite elem_of_difference, elem_of_singleton. by intros [_ ?].
        -- rewrite decide_False by (intros [_ ?]; done).
           apply bool_decide_ext.
           rewrite elem_of_difference, elem_of_singleton.
           split; [by intros [? _] | intros ?; split; [done|congruence]].
    + rewrite (handlers_of_ext w w1 sig) by (by apply Hother).
      destruct o as [s g|s g]; simpl in *; apply Hcongr;
        by rewrite decide_False by (intros [? _]; done).
Qed.

(** Registered twice, removed once: not registered. *)
Example add_add_remove_unregisters :
  handlers_of
    (snd (run direct_manager
            [OpAdd SIGUSR1 1%nat; OpAdd SIGUSR1 1%nat; OpRemove SIGUSR1 1%nat]
            (initial_world None))) SIGUSR1 = ∅.
Proof. reflexivity. Qed.

(** ** Dispatch and the rest of the world *)

Section dispatch_more.
Variable handler_body : handler -> signo -> frame -> option exn.
Variable set_iter : gset handler -> list handler.
Hypothesis set_iter_perm : forall hs, set_iter hs ≡ₚ elements hs.

(** The iteration that a dispatch of [sig] makes in [w]: over the
    signal's set, or none without an entry. *)
Lemma delivered_lookup self sig fr w :
  delivered handler_body set_iter self sig fr w =
    match get (signal_map w) sig with
    | Some hs =>
        map (fun g => (g, sig, fr)) (invoked handler_body sig fr (set_iter hs))
    | None => []
    end.
Proof.
  destruct (get (signal_map w) sig) as [hs|] eqn:Hget.
  - by apply delivered_registered.
  - unfold delivered.
    rewrite (_handle_signal_unregistered _ _ self sig fr w Hget). simpl.
    by apply drop_all.
Qed.

Lemma _handle_signal_lookup self sig fr w w' :
  get (signal_map w') sig = get (signal_map w) sig ->
  fst (_handle_signal handler_body set_iter self sig fr w') =
  fst (_handle_signal handler_body set_iter self sig fr w).
Proof.
  intros Hget. destruct (get (signal_map w) sig) as [hs|] eqn:Hw.
  - by rewrite (_handle_signal_registered _ _ self sig fr w' hs Hget),
      (_handle_signal_registered _ _ self sig fr w hs Hw).
  - by rewrite (_handle_signal_unregistered _ _ self sig fr w' Hget),
      (_handle_signal_unregistered _ _ self sig fr w Hw).
Qed.

Lemma times_called_not_invoked h sig fr (l : list handler) :
  h ∉ l -> times_called h sig fr (map (fun g => (g, sig, fr)) l) = 0.
Proof.
  induction l as [|g l IH]; [done|].
  intros [Hne Hl]%not_elem_of_cons. cbn [map times_called].
  rewrite IH by done. by rewrite decide_False by congruence.
Qed.

Lemma invoked_subseteq sig fr hs g :
  g ∈ invoked handler_body sig fr hs -> g ∈ hs.
Proof.
  destruct (invoked_prefix handler_body sig fr hs) as [rest Hrest].
  intros Hg. rewrite Hrest. apply elem_of_app. by left.
Qed.

(** X5. A public call for one signal leaves every other signal alone:
    its registry entry is the same, and a dispatch of it ends the same
    way and makes the same calls as before. *)
Theorem other_signals_unaffected self self' o s fr w :
  s ≠ op_signal o ->
  let w' := snd (do_op self o w) in
  get (signal_map w') s = get (signal_map w) s /\
  fst (_handle_signal handler_body set_iter self' s fr w') =
    fst (_handle_signal handler_body set_iter self' s fr w) /\
  delivered handler_body set_iter self' s fr w' =
    delivered handler_body set_iter self' s fr w.
Proof.
  intros Hne. destruct (do_op_registry self o w) as (w' & Hstep & Hother & _).
  rewrite Hstep. simpl. specialize (Hother s Hne).
  split; [done|]. split; [by apply _handle_signal_lookup|].
  by rewrite !delivered_lookup, Hother.
Qed.

(** X6. After [remove_signal_handler(sig, h)], in any state, a dispatch
    of [sig] does not call [h], whatever the other handlers do. *)
Theorem removed_handler_not_called self self' sig h fr w :
  let w' := snd (remove_signal_handler self sig h w) in
  times_called h sig fr (delivered handler_body set_iter self' sig fr w') = 0.
Proof.
  destruct (do_op_registry self (OpRemove sig h) w)
    as (w' & Hstep & _ & Hsig & _).
  simpl in Hstep, Hsig. rewrite Hstep. simpl.
  rewrite delivered_lookup. unfold handlers_of in Hsig.
  destruct (get (signal_map w') sig) as [hs|]; [|done].
  simpl in Hsig. apply times_called_not_invoked.
  intros Hin%invoked_subseteq. rewrite set_iter_perm in Hin.
  apply elem_of_elements in Hin. rewrite Hsig in Hin.
  apply elem_of_difference in Hin as [_ Hin]. apply Hin.
  by apply elem_of_singleton.
Qed.

(** X7. A dispatch changes nothing but the record of calls, whether it
    returns or raises.  It appends its calls to the record; each of them
    is to a handler registered for the signal, with the signal and the
    frame of the dispatch, and none occurs twice. *)
Theorem handle_signal_only_calls self sig fr w :
  let w' := snd (_handle_signal handler_body set_iter self sig fr w) in
  let cs := delivered handler_body set_iter self sig fr w in
  signal_map w' = signal_map w /\
  replaced_signals w' = replaced_signals w /\
  os_disposition w' = os_disposition w /\
  loop_watchers w' = loop_watchers w /\
  calls w' = calls w ++ cs /\
  NoDup cs /\
  (forall c, c ∈ cs -> exists g, c = (g, sig, fr) /\ g ∈ handlers_of w sig).
Proof.
  simpl. rewrite delivered_lookup. unfold handlers_of.
  destruct (get (signal_map w) sig) as [hs|] eqn:Hget.
  - rewrite (_handle_signal_registered _ _ self sig fr w hs Hget). simpl.
    repeat split; try done.
    + apply NoDup_fmap_2; [by intros ? ? [= ->]|].
      apply invoked_NoDup. rewrite set_iter_perm. apply NoDup_elements.
    + intros c (g & -> & Hg)%list_elem_of_fmap. exists g. split; [done|].
      apply invoked_subseteq in Hg. rewrite set_iter_perm in Hg.
      by apply elem_of_elements.
  - rewrite (_handle_signal_unregistered _ _ self sig fr w Hget). simpl.
    rewrite app_nil_r. repeat split; try done; [apply NoDup_nil_2|].
    by intros c ?%elem_of_nil.
Qed.

(** X8. Removing the only handler of a signal and dispatching the
    signal: the dispatch finds the entry with an empty set, returns
    normally and calls nothing. *)
Theorem dispatch_after_last_removal self sig h fr w :
  get (signal_map w) sig = Some {[h]} ->
  (remove_signal_handler self sig h ;;
   _handle_signal handler_body set_iter self sig fr) w
    = (Ok tt, snd (remove_signal_handler self sig h w)).
Proof.
  intros Hget. unfold bind.
  rewrite (remove_signal_handler_member self sig h w {[h]} Hget)
    by (by apply elem_of_singleton).
  simpl. rewrite difference_diag_L.
  rewrite (_handle_signal_registered _ _ self sig fr _ ∅)
    by apply get_set_eq.
  pose proof (set_iter_perm ∅) as Hperm. rewrite elements_empty in Hperm.
  apply Permutation_nil_r in Hperm. rewrite Hperm. simpl.
  by rewrite app_nil_r.
Qed.
End dispatch_more.

(** ** Teardown in every state *)

Lemma for_each_app {X} (xs ys : list X) (body : X -> M unit) w :
  for_each (xs ++ ys) body w = (for_each xs body ;; for_each ys body) w.
Proof.
  revert w. induction xs as [|x xs IH]; intros w; simpl; [done|].
  unfold bind. destruct (body x w) as [[[]|e] w1]; [|done].
  by rewrite IH.
Qed.

(** The first loop of [__exit__] on a direct-mode manager, over distinct
    signals that all have an override entry: each gets its recorded
    disposition back and loses its entry; nothing else changes. *)
Lemma restore_each_direct self :
  event_loop self = None ->
  forall sigs w,
    NoDup sigs ->
    NoDup (keys (replaced_signals w)) ->
    (forall s, s ∈ sigs -> s ∈ keys (replaced_signals w)) ->
    exists w',
      for_each sigs (fun sig => _remove_signal_handler self sig) w
        = (Ok tt, w') /\
      signal_map w' = signal_map w /\
      NoDup (keys (replaced_signals w')) /\
      (forall s, get (replaced_signals w') s =
                 if decide (s ∈ sigs) then None
                 else get (replaced_signals w) s) /\
      (forall s, os_disposition w' s =
                 if decide (s ∈ sigs) then recorded_or_current w s
                 else os_disposition w s) /\
      loop_watchers w' = loop_watchers w /\
      calls w' = calls w.
Proof.
  intros Hdirect sigs.
  induction sigs as [|k sigs IH]; intros w Hnd Hrs Hall.
  - exists w. simpl. repeat split; done.
  - apply NoDup_cons in Hnd as [Hk Hnd].
    assert (k ∈ keys (replaced_signals w)) as [d Hd]%get_Some_keys
      by (apply Hall; left).
    set (w1 := with_replaced_signals (del (replaced_signals w) k)
                 (with_os_disposition
                    (fun s => if decide (s = k) then d
                              else os_disposition w s) w)).
    assert (_remove_signal_handler self k w = (Ok tt, w1)) as Hstep.
    { unfold _remove_signal_handler. rewrite Hdirect. step_monad.
      rewrite Hd. simpl. by rewrite Hd. }
    assert (NoDup (keys (replaced_signals w1))) as Hrs1.
    { simpl. apply (sublist_NoDup _ _ Hrs), keys_del_sublist. }
    destruct (IH w1 Hnd Hrs1)
      as (w' & Hrun & Hsm & Hnd' & Hget & Hos & Hlw & Hcs).
    { intros s Hs. simpl. apply get_Some_keys.
      rewrite get_del_ne by (intros ->; done).
      apply get_Some_keys, Hall. by right. }
    exists w'. simpl. unfold bind at 1. rewrite Hstep, Hrun.
    repeat split; try done.
    + intros s. rewrite Hget. simpl.
      rewrite (decide_ext (s ∈ k :: sigs) (s = k ∨ s ∈ sigs))
        by apply elem_of_cons.
      destruct (decide (s ∈ sigs)).
      * by rewrite decide_True by by right.
      * destruct (decide (s = k)) as [->|Hne].
        -- rewrite decide_True by by left. by apply get_del_eq.
        -- rewrite decide_False by (intros [?|?]; done).
           by apply get_del_ne.
    + intros s. rewrite Hos. unfold recorded_or_current. simpl.
      rewrite (decide_ext (s ∈ k :: sigs) (s = k ∨ s ∈ sigs))
        by apply elem_of_cons.
      destruct (decide (s ∈ sigs)) as [Hs|Hs].
      * destruct (decide (s = k ∨ s ∈ sigs)) as [_|Hn];
          [|by destruct Hn; right].
        rewrite get_del_ne by (intros ->; done).
        assert (is_Some (get (replaced_signals w) s)) as [d' ->]; [|done].
        apply get_Some_keys, Hall. by right.
      * destruct (decide (s = k)) as [->|Hne].
        -- destruct (decide (k = k ∨ k ∈ sigs)) as [_|Hn];
             [|by destruct Hn; left].
           by rewrite Hd.
        -- by destruct (decide (s = k ∨ s ∈ sigs)) as [[?|?]|_].
Qed.

(** X9. Teardown of a direct-mode manager, in a state where no dict has
    a key twice, every override key is a registry key and every registry
    key has an override entry: it returns, every signal with an entry
    has its recorded disposition back, the override table is empty, and
    the registry, the watchers and the record of calls are as before. *)
Theorem exit_direct_restores_all self w :
  event_loop self = None ->
  class_consistent w ->
  (forall s, s ∈ keys (signal_map w) -> s ∈ keys (replaced_signals w)) ->
  exists w',
    __exit__ self w = (Ok tt, w') /\
    signal_map w' = signal_map w /\
    replaced_signals w' = [] /\
    (forall s, os_disposition w' s = recorded_or_current w s) /\
    loop_watchers w' = loop_watchers w /\
    calls w' = calls w.
Proof.
  intros Hdirect (Hsm & Hrs & Hsub) Hall.
  destruct (restore_each_direct self Hdirect (keys (signal_map w)) w
              Hsm Hrs Hall)
    as (w' & Hrun & Hsm' & _ & Hget & Hos & Hlw & Hcs).
  assert (replaced_signals w' = []) as Hempty.
  { destruct (replaced_signals w') as [|[k d] rs] eqn:Hrs'; [done|].
    specialize (Hget k). simpl in Hget. rewrite decide_True in Hget by done.
    case_decide as Hk; [done|].
    exfalso. apply Hk, Hsub, get_Some_keys. rewrite <- Hget. by eexists. }
  exists w'. unfold __exit__. step_monad. rewrite Hrun, Hempty. simpl.
  repeat split; try done.
  intros s. rewrite Hos. case_decide as Hs; [done|].
  unfold recorded_or_current.
  assert (get (replaced_signals w) s = None) as ->; [|done].
  apply get_None_keys. intros Hin. by apply Hs, Hsub.
Qed.

(** X10. Teardown of a direct-mode manager stops at the first registry
    key without an override entry: it raises [KeyError] for that key.
    The signals before it have their recorded disposition back and no
    override entry any more; every other signal keeps its disposition
    and its override entry, so the hooks of the later keys stay. *)
Theorem exit_direct_stops_at_missing_override self w pre k post :
  event_loop self = None ->
  keys (signal_map w) = pre ++ k :: post ->
  NoDup pre ->
  NoDup (keys (replaced_signals w)) ->
  (forall s, s ∈ pre -> s ∈ keys (replaced_signals w)) ->
  k ∉ keys (replaced_signals w) ->
  exists w',
    __exit__ self w = (Raise (KeyError (KSig k)), w') /\
    signal_map w' = signal_map w /\
    (forall s, s ∈ pre ->
       os_disposition w' s = recorded_or_current w s /\
       get (replaced_signals w') s = None) /\
    (forall s, s ∉ pre ->
       os_disposition w' s = os_disposition w s /\
       get (replaced_signals w') s = get (replaced_signals w) s).
Proof.
  intros Hdirect Hkeys Hnd Hrs Hall Hk.
  destruct (restore_each_direct self Hdirect pre w Hnd Hrs Hall)
    as (w' & Hrun & Hsm' & _ & Hget & Hos & _).
  exists w'. split.
  - unfold __exit__. step_monad. rewrite Hkeys, for_each_app.
    unfold bind at 1. rewrite Hrun. simpl.
    unfold bind at 1, _remove_signal_handler at 1. rewrite Hdirect.
    step_monad.
    assert (get (replaced_signals w') k = None) as ->; [|done].
    rewrite Hget. case_decide; [done|]. by apply get_None_keys.
  - split; [done|]. split; intros s Hs.
    + by rewrite Hos, Hget, !decide_True by done.
    + by rewrite Hos, Hget, !decide_False by done.
Qed.

(** One [remove_signal_handler] of the loop, field by field. *)
Lemma loop_remove_signal_handler_fields l k w :
  exists b w1,
    loop_remove_signal_handler l k w = (Ok b, w1) /\
    signal_map w1 = signal_map w /\
    replaced_signals w1 = replaced_signals w /\
    calls w1 = calls w /\
    (forall l' s,
       loop_watchers w1 l' s =
         if decide (l' = l /\ s = k) then None else loop_watchers w l' s) /\
    (forall s,
       os_disposition w1 s =
         if decide (s = k /\ is_Some (loop_watchers w l k))
         then loop_default k else os_disposition w s).
Proof.
  unfold loop_remove_signal_handler.
  destruct (loop_watchers w l k) as [cb|] eqn:Hw; eexists _, _;
    (split; [done|]); simpl; repeat split; try done.
  - intros s. destruct (decide (s = k)) as [->|Hne].
    + by rewrite decide_True by (split; [done|by eexists]).
    + by rewrite decide_False by (by intros [? _]).
  - intros l' s. case_decide as Hd; [|done].
    destruct Hd as [-> ->]. done.
  - intros s. rewrite decide_False; [done|]. by intros [_ ?%is_Some_None].
Qed.

(** The first loop of [__exit__] on an event-loop manager: for each
    signal the loop watches, it drops the watcher and resets the
    signal's disposition. *)
Lemma detach_each_loop self l :
  event_loop self = Some l ->
  forall sigs w,
  exists w',
    for_each sigs (fun sig => _remove_signal_handler self sig) w
      = (Ok tt, w') /\
    signal_map w' = signal_map w /\
    replaced_signals w' = replaced_signals w /\
    calls w' = calls w /\
    (forall l' s,
       loop_watchers w' l' s =
         if decide (l' = l /\ s ∈ sigs) then None
         else loop_watchers w l' s) /\
    (forall s,
       os_disposition w' s =
         if decide (s ∈ sigs /\ is_Some (loop_watchers w l s))
         then loop_default s else os_disposition w s).
Proof.
  intros Hloop sigs. induction sigs as [|k sigs IH]; intros w.
  - exists w. simpl. repeat split; try done; intros;
      (rewrite decide_False; [done|]);
      first [by intros [_ ?%elem_of_nil] | by intros [?%elem_of_nil _]].
  - destruct (loop_remove_signal_handler_fields l k w)
      as (b & w1 & Hrem & Hsm1 & Hrs1 & Hcs1 & Hlw1 & Hos1).
    assert (_remove_signal_handler self k w = (Ok tt, w1)) as Hstep.
    { unfold _remove_signal_handler. rewrite Hloop.
      unfold bind. by rewrite Hrem. }
    destruct (IH w1) as (w' & Hrun & Hsm & Hrs & Hcs & Hlw & Hos).
    exists w'. simpl. unfold bind at 1. rewrite Hstep, Hrun.
    repeat split; try congruence.
    + intros l' s. rewrite Hlw, Hlw1.
      rewrite (decide_ext (l' = l /\ s ∈ k :: sigs)
                 (l' = l /\ (s = k \/ s ∈ sigs)))
        by (by rewrite elem_of_cons).
      repeat case_decide; try done; exfalso; tauto.
    + intros s. rewrite Hos, Hos1, Hlw1.
      rewrite (decide_ext (s ∈ k :: sigs /\ is_Some (loop_watchers w l s))
                 ((s = k \/ s ∈ sigs) /\ is_Some (loop_watchers w l s)))
        by (by rewrite elem_of_cons).
      destruct (decide (s = k)) as [->|Hne].
      * rewrite (decide_True (P:=l = l /\ k = k)) by done.
        rewrite (decide_False (P:=k ∈ sigs /\ is_Some None))
          by (by intros [_ ?%is_Some_None]).
        apply decide_ext. tauto.
      * rewrite (decide_False (P:=l = l /\ s = k)) by (by intros [_ ?]).
        rewrite (decide_False (P:=s = k /\ _)) by (by intros [? _]).
        apply decide_ext. tauto.
Qed.

(** The second loop of [__exit__], over signals that all have an
    override entry: each gets its recorded disposition installed, and
    the entries stay. *)
Lemma reinstall_each sigs :
  forall w,
    (forall s, s ∈ sigs -> s ∈ keys (replaced_signals w)) ->
    exists w',
      for_each sigs (fun sig =>
        d <- replaced_signals_getitem sig ;;
        signal_signal sig d ;;
        ret tt) w = (Ok tt, w') /\
      signal_map w' = signal_map w /\
      replaced_signals w' = replaced_signals w /\
      loop_watchers w' = loop_watchers w /\
      calls w' = calls w /\
      (forall s, os_disposition w' s =
                 if decide (s ∈ sigs) then recorded_or_current w s
                 else os_disposition w s).
Proof.
  induction sigs as [|k sigs IH]; intros w Hall.
  - exists w. simpl. repeat split; done.
  - assert (k ∈ keys (replaced_signals w)) as [d Hd]%get_Some_keys
      by (apply Hall; left).
    set (w1 := with_os_disposition
                 (fun s => if decide (s = k) then d
                           else os_disposition w s) w).
    destruct (IH w1) as (w' & Hrun & Hsm & Hrs & Hlw & Hcs & Hos).
    { intros s Hs. simpl. apply Hall. by right. }
    assert ((d <- replaced_signals_getitem k ;;
             signal_signal k d ;;
             ret tt) w = (Ok tt, w1)) as Hstep.
    { step_monad. by rewrite Hd. }
    exists w'. simpl. unfold bind at 1. rewrite Hstep, Hrun.
    repeat split; try done.
    intros s. rewrite Hos. unfold recorded_or_current. simpl.
    rewrite (decide_ext (s ∈ k :: sigs) (s = k ∨ s ∈ sigs))
      by apply elem_of_cons.
    destruct (decide (s ∈ sigs)) as [Hs|Hs].
    + destruct (decide (s = k ∨ s ∈ sigs)) as [_|Hn];
        [|by destruct Hn; right].
      assert (is_Some (get (replaced_signals w) s)) as [d' ->]; [|done].
      apply get_Some_keys, Hall. by right.
    + destruct (decide (s = k)) as [->|Hne].
      * destruct (decide (k = k ∨ k ∈ sigs)) as [_|Hn];
          [|by destruct Hn; left].
        by rewrite Hd.
      * by destruct (decide (s = k ∨ s ∈ sigs)) as [[?|?]|_].
Qed.

(** [__exit__] as its two loops. *)
Lemma __exit___loops self w :
  __exit__ self w =
    match for_each (keys (signal_map w))
            (fun sig => _remove_signal_handler self sig) w with
    | (Ok _, w1) =>
        for_each (keys (replaced_signals w1)) (fun sig =>
          d <- replaced_signals_getitem sig ;;
          signal_signal sig d ;;
          ret tt) w1
    | (Raise e, w1) => (Raise e, w1)
    end.
Proof. reflexivity. Qed.

(** X11. Teardown of an event-loop manager returns in every state.  It
    drops the watcher of every registry key on the manager's loop.  A
    signal with an override entry ends with the recorded disposition; a
    registry key the loop was watching, without such an entry, ends with
    the loop's default ([SIG_DFL], or [default_int_handler] for
    [SIGINT]), whatever it had before the loop watched it; every other
    disposition is as before.  The registry, the override table, the
    other loops' watchers and the record of calls are unchanged. *)
Theorem exit_loop_detaches_watchers self l w :
  event_loop self = Some l ->
  exists w',
    __exit__ self w = (Ok tt, w') /\
    signal_map w' = signal_map w /\
    replaced_signals w' = replaced_signals w /\
    (forall s,
       os_disposition w' s =
         match get (replaced_signals w) s with
         | Some d => d
         | None =>
             if decide (s ∈ keys (signal_map w) /\
                        is_Some (loop_watchers w l s))
             then loop_default s else os_disposition w s
         end) /\
    (forall l' s,
       loop_watchers w' l' s =
         if decide (l' = l /\ s ∈ keys (signal_map w)) then None
         else loop_watchers w l' s) /\
    calls w' = calls w.
Proof.
  intros Hloop.
  destruct (detach_each_loop self l Hloop (keys (signal_map w)) w)
    as (w1 & Hrun1 & Hsm1 & Hrs1 & Hcs1 & Hlw1 & Hos1).
  destruct (reinstall_each (keys (replaced_signals w1)) w1)
    as (w' & Hrun2 & Hsm2 & Hrs2 & Hlw2 & Hcs2 & Hos2); [done|].
  exists w'. rewrite __exit___loops, Hrun1, Hrun2.
  repeat split; try congruence.
  - intros s. rewrite Hos2. unfold recorded_or_current.
    rewrite Hrs1, Hos1.
    destruct (get (replaced_signals w) s) as [d|] eqn:Hget.
    + rewrite decide_True; [done|]. apply get_Some_keys. by eexists.
    + rewrite decide_False; [done|]. by apply get_None_keys.
  - intros l' s. by rewrite Hlw2, Hlw1.
Qed.

(** ** Hooks installed by a manager *)

(** The registry keys after a public call: a first registration appends
    its signal, every other call leaves the keys as they are. *)
Lemma do_op_keys self o w :
  keys (signal_map (snd (do_op self o w))) =
    match o with
    | OpAdd sig _ =>
        if decide (sig ∈ keys (signal_map w)) then keys (signal_map w)
        else keys (signal_map w) ++ [sig]
    | OpRemove _ _ => keys (signal_map w)
    end.
Proof.
  destruct o as [sig h|sig h]; simpl.
  - destruct (get (signal_map w) sig) as [hs|] eqn:Hget.
    + rewrite (add_signal_handler_present self sig h w hs Hget). simpl.
      rewrite keys_set_cases.
      by destruct (decide (sig ∈ keys (signal_map w))).
    + assert (sig ∉ keys (signal_map w)) as Hnotin by by apply get_None_keys.
      rewrite decide_False by done.
      destruct (event_loop self) as [l|] eqn:Hmode.
      * rewrite (add_signal_handler_absent_loop self l sig h w Hmode Hget).
        simpl. by apply keys_set_absent.
      * rewrite (add_signal_handler_absent_direct self sig h w Hmode Hget).
        simpl. by apply keys_set_absent.
  - destruct (remove_signal_handler_inv self sig h w) as (w' & -> & ? & _).
    done.
Qed.

Lemma do_op_keys_mono self o w s :
  s ∈ keys (signal_map w) -> s ∈ keys (signal_map (snd (do_op self o w))).
Proof.
  intros Hs. rewrite do_op_keys. destruct o; [|done].
  case_decide; [done|]. apply elem_of_app. by left.
Qed.

Lemma run_keys_mono self ops w s :
  s ∈ keys (signal_map w) -> s ∈ keys (signal_map (snd (run self ops w))).
Proof.
  revert w. induction ops as [|o ops IH]; intros w Hs; [done|].
  unfold run in *. simpl. unfold bind at 1.
  pose proof (do_op_keys_mono self o w s Hs) as Hs1.
  destruct (do_op self o w) as [[[]|e] w1]; simpl in *; [by apply IH|done].
Qed.

(** One public call on a direct-mode manager: a first registration puts
    the trampoline in place of the signal's disposition and records that
    disposition; nothing else touches the process or the override
    table. *)
Lemma do_op_direct self o w :
  event_loop self = None ->
  exists w1,
    do_op self o w = (Ok tt, w1) /\
    (forall s, os_disposition w1 s =
       if decide (s ∈ keys (signal_map w1) /\ s ∉ keys (signal_map w))
       then BoundHandleSignal (self_id self) else os_disposition w s) /\
    (forall s, get (replaced_signals w1) s =
       if decide (s ∈ keys (signal_map w1) /\ s ∉ keys (signal_map w))
       then Some (os_disposition w s) else get (replaced_signals w) s) /\
    loop_watchers w1 = loop_watchers w.
Proof.
  intros Hdirect.
  assert (forall w1,
    keys (signal_map w1) = keys (signal_map w) ->
    replaced_signals w1 = replaced_signals w ->
    os_disposition w1 = os_disposition w ->
    (forall s, os_disposition w1 s =
       if decide (s ∈ keys (signal_map w1) /\ s ∉ keys (signal_map w))
       then BoundHandleSignal (self_id self) else os_disposition w s) /\
    (forall s, get (replaced_signals w1) s =
       if decide (s ∈ keys (signal_map w1) /\ s ∉ keys (signal_map w))
       then Some (os_disposition w s) else get (replaced_signals w) s))
    as Hsame.
  { intros w1 -> -> ->.
    split; intros s; by rewrite decide_False by (by intros [? ?]). }
  destruct o as [sig h|sig h]; simpl.
  - destruct (get (signal_map w) sig) as [hs|] eqn:Hget.
    + set (w1 := with_signal_map (set (signal_map w) sig (hs ∪ {[h]})) w).
      exists w1. split; [by apply add_signal_handler_present|].
      destruct (Hsame w1) as [Hos1 Hrs1]; try done.
      simpl. apply keys_set_present, get_Some_keys. eauto.
    + assert (sig ∉ keys (signal_map w)) as Hnotin by by apply get_None_keys.
      eexists. split; [by apply add_signal_handler_absent_direct|].
      simpl. rewrite keys_set_absent by done.
      assert (forall s, s ∈ keys (signal_map w) ++ [sig] /\
                        s ∉ keys (signal_map w) <-> s = sig) as Hnew.
      { intros s. rewrite elem_of_app, list_elem_of_singleton.
        split; [by intros [[?|?] ?] | intros ->; split; [by right|done]]. }
      repeat split; try done; intros s;
        rewrite (decide_ext (s ∈ keys (signal_map w) ++ [sig] /\
                             s ∉ keys (signal_map w)) (s = sig))
          by apply Hnew.
      * done.
      * destruct (decide (s = sig)) as [->|Hne]; [apply get_set_eq|].
        by apply get_set_ne.
  - destruct (remove_signal_handler_inv self sig h w)
      as (w1 & Hrun & Hk & Hrs & Hos & Hlw & _).
    exists w1. split; [done|].
    by destruct (Hsame w1 Hk Hrs Hos) as [Hos1 Hrs1].
Qed.

(** X12. A sequence of public calls on a direct-mode manager, from any
    state: exactly the signals it registers for the first time get the
    manager's trampoline as disposition and an override entry holding
    the disposition they had; every other disposition and override
    entry, and every watcher, is as before. *)
Theorem run_direct_installs_trampolines self ops w :
  event_loop self = None ->
  exists w',
    run self ops w = (Ok tt, w') /\
    (forall s, os_disposition w' s =
       if decide (s ∈ keys (signal_map w') /\ s ∉ keys (signal_map w))
       then BoundHandleSignal (self_id self) else os_disposition w s) /\
    (forall s, get (replaced_signals w') s =
       if decide (s ∈ keys (signal_map w') /\ s ∉ keys (signal_map w))
       then Some (os_disposition w s) else get (replaced_signals w) s) /\
    loop_watchers w' = loop_watchers w.
Proof.
  intros Hdirect. revert w. induction ops as [|o ops IH]; intros w.
  - exists w. split; [done|]. split; [|split; [|done]]; intros s;
      by rewrite decide_False by (by intros [? ?]).
  - destruct (do_op_direct self o w Hdirect) as (w1 & Hstep & Hos1 & Hrs1 & Hlw1).
    destruct (IH w1) as (w' & Hrun & Hos & Hrs & Hlw).
    pose proof (do_op_keys_mono self o w) as Hmono1.
    pose proof (run_keys_mono self ops w1) as Hmono.
    rewrite Hstep in Hmono1. rewrite Hrun in Hmono. simpl in Hmono1, Hmono.
    exists w'. split.
    { unfold run in *. simpl. unfold bind at 1. by rewrite Hstep. }
    split; [|split; [|congruence]]; intros s.
    + rewrite Hos, Hos1. specialize (Hmono1 s). specialize (Hmono s).
      repeat case_decide; try done; exfalso; tauto.
    + rewrite Hrs, Hrs1, Hos1. specialize (Hmono1 s). specialize (Hmono s).
      repeat case_decide; try done; exfalso; tauto.
Qed.

(** One public call on an event-loop manager: a first registration puts
    a watcher on the loop, and the loop puts its no-op handler in place
    of the signal's disposition; nothing is recorded. *)
Lemma do_op_loop self l o w :
  event_loop self = Some l ->
  exists w1,
    do_op self o w = (Ok tt, w1) /\
    (forall l' s, loop_watchers w1 l' s =
       if decide (l' = l /\
                  s ∈ keys (signal_map w1) /\ s ∉ keys (signal_map w))
       then Some (LambdaHandleSignal (self_id self) s)
       else loop_watchers w l' s) /\
    (forall s, os_disposition w1 s =
       if decide (s ∈ keys (signal_map w1) /\ s ∉ keys (signal_map w))
       then SighandlerNoop else os_disposition w s) /\
    replaced_signals w1 = replaced_signals w.
Proof.
  intros Hloop.
  assert (forall w1,
    keys (signal_map w1) = keys (signal_map w) ->
    loop_watchers w1 = loop_watchers w ->
    os_disposition w1 = os_disposition w ->
    (forall l' s, loop_watchers w1 l' s =
       if decide (l' = l /\
                  s ∈ keys (signal_map w1) /\ s ∉ keys (signal_map w))
       then Some (LambdaHandleSignal (self_id self) s)
       else loop_watchers w l' s) /\
    (forall s, os_disposition w1 s =
       if decide (s ∈ keys (signal_map w1) /\ s ∉ keys (signal_map w))
       then SighandlerNoop else os_disposition w s)) as Hsame.
  { intros w1 -> -> ->. split.
    - intros l' s. by rewrite decide_False by (by intros (? & ? & ?)).
    - intros s. by rewrite decide_False by (by intros (? & ?)). }
  destruct o as [sig h|sig h]; simpl.
  - destruct (get (signal_map w) sig) as [hs|] eqn:Hget.
    + set (w1 := with_signal_map (set (signal_map w) sig (hs ∪ {[h]})) w).
      exists w1. split; [by apply add_signal_handler_present|].
      destruct (Hsame w1) as [Hlw1 Hos1]; try done.
      simpl. apply keys_set_present, get_Some_keys. eauto.
    + assert (sig ∉ keys (signal_map w)) as Hnotin by by apply get_None_keys.
      eexists. split; [by apply add_signal_handler_absent_loop|].
      simpl. rewrite keys_set_absent by done.
      assert (forall s, s ∈ keys (signal_map w) ++ [sig] /\
                        s ∉ keys (signal_map w) <-> s = sig) as Hnew.
      { intros s. rewrite elem_of_app, list_elem_of_singleton.
        split; [by intros [[?|?] ?] | intros ->; split; [by right|done]]. }
      repeat split; try done.
      * intros l' s.
        destruct (decide (l' = l /\ s = sig)) as [[-> ->]|Hn].
        -- rewrite decide_True; [done|]. split; [done|]. by apply Hnew.
        -- rewrite decide_False; [done|].
           intros (-> & Hs). apply Hnew in Hs. by apply Hn.
      * intros s.
        by rewrite (decide_ext (s ∈ keys (signal_map w) ++ [sig] /\
                                s ∉ keys (signal_map w)) (s = sig))
          by apply Hnew.
  - destruct (remove_signal_handler_inv self sig h w)
      as (w1 & Hrun & Hk & Hrs & Hos & Hlw & _).
    exists w1. split; [done|].
    by destruct (Hsame w1 Hk Hlw Hos) as [Hlw1 Hos1].
Qed.

(** X13. A sequence of public calls on an event-loop manager, from any
    state: exactly the signals it registers for the first time get a
    watcher on the manager's loop, the callback that dispatches that
    signal through this manager, and the loop's no-op handler as
    process disposition; their earlier disposition is recorded nowhere.
    No other disposition, no override entry and no other watcher
    changes. *)
Theorem run_loop_installs_watchers self l ops w :
  event_loop self = Some l ->
  exists w',
    run self ops w = (Ok tt, w') /\
    (forall l' s, loop_watchers w' l' s =
       if decide (l' = l /\
                  s ∈ keys (signal_map w') /\ s ∉ keys (signal_map w))
       then Some (LambdaHandleSignal (self_id self) s)
       else loop_watchers w l' s) /\
    (forall s, os_disposition w' s =
       if decide (s ∈ keys (signal_map w') /\ s ∉ keys (signal_map w))
       then SighandlerNoop else os_disposition w s) /\
    replaced_signals w' = replaced_signals w.
Proof.
  intros Hloop. revert w. induction ops as [|o ops IH]; intros w.
  - exists w. split; [done|]. split; [|split; [|done]].
    + intros l' s. by rewrite decide_False by (by intros (? & ? & ?)).
    + intros s. by rewrite decide_False by (by intros (? & ?)).
  - destruct (do_op_loop self l o w Hloop)
      as (w1 & Hstep & Hlw1 & Hos1 & Hrs1).
    destruct (IH w1) as (w' & Hrun & Hlw & Hos & Hrs).
    pose proof (do_op_keys_mono self o w) as Hmono1.
    pose proof (run_keys_mono self ops w1) as Hmono.
    rewrite Hstep in Hmono1. rewrite Hrun in Hmono. simpl in Hmono1, Hmono.
    exists w'. split.
    { unfold run in *. simpl. unfold bind at 1. by rewrite Hstep. }
    split; [|split; [|congruence]].
    + intros l' s.
      rewrite Hlw, Hlw1. specialize (Hmono1 s). specialize (Hmono s).
      repeat case_decide; try done; exfalso; tauto.
    + intros s.
      rewrite Hos, Hos1. specialize (Hmono1 s). specialize (Hmono s).
      repeat case_decide; try done; exfalso; tauto.
Qed.

(** ** What every call keeps *)

Lemma override_shrinks_preorder : PreOrder override_shrinks.
Proof.
  split.
  - intros w. unfold override_shrinks. done.
  - intros w1 w2 w3 H12 H23. unfold override_shrinks in *. by etrans.
Qed.

Section stays_within.
Context (R : relation World) (HR : PreOrder R).

Lemma stays_within_ret {A} (a : A) : stays_within R (ret a).
Proof. intros w. simpl. done. Qed.

Lemma stays_within_gets {A} (g : World -> A) : stays_within R (gets g).
Proof. intros w. simpl. done. Qed.

Lemma stays_within_bind {A B} (m : M A) (k : A -> M B) :
  stays_within R m -> (forall a, stays_within R (k a)) ->
  stays_within R (bind m k).
Proof.
  intros Hm Hk w. unfold bind. specialize (Hm w).
  destruct (m w) as [[a|e] w1]; simpl in *; [|done].
  etrans; [done|]. apply Hk.
Qed.

Lemma stays_within_for_each {X} (xs : list X) (body : X -> M unit) :
  (forall x, stays_within R (body x)) -> stays_within R (for_each xs body).
Proof.
  intros Hbody. induction xs as [|x xs IH]; simpl.
  - apply stays_within_ret.
  - apply stays_within_bind; auto.
Qed.
End stays_within.

Lemma replaced_signals_getitem_shrinks sig :
  stays_within override_shrinks (replaced_signals_getitem sig).
Proof.
  intros w. unfold replaced_signals_getitem, override_shrinks.
  by destruct (get (replaced_signals w) sig).
Qed.

Lemma signal_signal_shrinks sig d :
  stays_within override_shrinks (signal_signal sig d).
Proof. intros w. unfold override_shrinks. done. Qed.

Lemma replaced_signals_delitem_shrinks sig :
  stays_within override_shrinks (replaced_signals_delitem sig).
Proof.
  intros w. unfold replaced_signals_delitem, override_shrinks.
  destruct (get (replaced_signals w) sig); simpl; [|done].
  apply keys_del_sublist.
Qed.

Lemma loop_remove_signal_handler_shrinks l sig :
  stays_within override_shrinks (loop_remove_signal_handler l sig).
Proof.
  intros w. unfold override_shrinks, loop_remove_signal_handler.
  by destruct (loop_watchers w l sig).
Qed.

(** Teardown never adds an override entry, however it ends. *)
Lemma __exit___shrinks self : stays_within override_shrinks (__exit__ self).
Proof.
  unfold __exit__, _remove_signal_handler.
  destruct (event_loop self);
    repeat first
      [ apply override_shrinks_preorder
      | apply stays_within_ret | apply stays_within_gets
      | apply replaced_signals_getitem_shrinks | apply signal_signal_shrinks
      | apply replaced_signals_delitem_shrinks
      | apply loop_remove_signal_handler_shrinks
      | apply (stays_within_bind _ override_shrinks_preorder); [|intros ?]
      | apply (stays_within_for_each _ override_shrinks_preorder);
          intros ? ].
Qed.

(** A dispatch leaves both dicts alone, however it ends. *)
Lemma _handle_signal_dicts handler_body set_iter self sig fr :
  preserves signal_map (_handle_signal handler_body set_iter self sig fr) /\
  preserves replaced_signals
    (_handle_signal handler_body set_iter self sig fr).
Proof.
  assert (forall B (f : World -> B),
    (forall cs w, f (with_calls cs w) = f w) ->
    preserves f (_handle_signal handler_body set_iter self sig fr)) as Hgen.
  { intros B f Hf. unfold _handle_signal, call_handler.
    repeat preserves_step.
    - intros w. unfold modify. simpl. apply Hf.
    - destruct (handler_body _ sig fr); preserves_step. }
  split; by apply Hgen.
Qed.

Section events_facts.
Variable handler_body : handler -> signo -> frame -> option exn.
Variable set_iter : gset handler -> list handler.

(** One event and the registry keys. *)
Lemma do_event_keys e w :
  keys (signal_map w) `prefix_of`
  keys (signal_map (snd (do_event handler_body set_iter e w))).
Proof.
  destruct e as [self sig h|self sig h|self|self sig fr]; simpl.
  - pose proof (do_op_keys self (OpAdd sig h) w) as Hk. simpl in Hk.
    rewrite Hk. case_decide; [done|]. by apply prefix_app_r.
  - pose proof (do_op_keys self (OpRemove sig h) w) as Hk. simpl in Hk.
    by rewrite Hk.
  - by rewrite __exit___signal_map.
  - by rewrite (proj1 (_handle_signal_dicts _ _ self sig fr)).
Qed.

(** X14. Whatever public calls, teardowns and dispatches are made, on
    whatever instances and however they end, the registry never loses a
    key and never reorders its keys: the keys it had are an initial
    segment of the keys it has afterwards. *)
Theorem registry_keys_only_grow es w :
  keys (signal_map w) `prefix_of`
  keys (signal_map (after_events handler_body set_iter es w)).
Proof.
  revert w. induction es as [|e es IH]; intros w; simpl; [done|].
  etrans; [apply (do_event_keys e)|]. apply IH.
Qed.

(** One event and the invariant of the two dicts. *)
Lemma do_event_class_consistent e w :
  class_consistent w ->
  class_consistent (snd (do_event handler_body set_iter e w)).
Proof.
  intros (Hsm & Hrs & Hsub).
  destruct e as [self sig h|self sig h|self|self sig fr]; simpl.
  - destruct (get (signal_map w) sig) as [hs|] eqn:Hget.
    + rewrite (add_signal_handler_present self sig h w hs Hget).
      unfold class_consistent. simpl.
      by rewrite keys_set_present by (apply get_Some_keys; eauto).
    + assert (sig ∉ keys (signal_map w)) as Hnotin by by apply get_None_keys.
      assert (NoDup (keys (signal_map w) ++ [sig])) as Hsm'.
      { apply NoDup_app. repeat split; [done| |apply NoDup_singleton].
        by intros s Hs ->%list_elem_of_singleton. }
      destruct (event_loop self) as [l|] eqn:Hmode.
      * rewrite (add_signal_handler_absent_loop self l sig h w Hmode Hget).
        unfold class_consistent. simpl. rewrite keys_set_absent by done.
        repeat split; try done. by apply list_subseteq_app_l.
      * rewrite (add_signal_handler_absent_direct self sig h w Hmode Hget).
        unfold class_consistent. simpl.
        assert (sig ∉ keys (replaced_signals w)) as Hnotin'
          by (intros Hin; by apply Hnotin, Hsub).
        rewrite !keys_set_absent by done. repeat split; try done.
        -- apply NoDup_app. repeat split; [done| |apply NoDup_singleton].
           by intros s Hs ->%list_elem_of_singleton.
        -- intros s [Hs|Hs]%elem_of_app; apply elem_of_app;
             [left; by apply Hsub|by right].
  - destruct (remove_signal_handler_inv self sig h w)
      as (w' & -> & Hk & Hr & _).
    unfold class_consistent. simpl. by rewrite Hk, Hr.
  - pose proof (__exit___shrinks self w) as Hshrink.
    unfold override_shrinks in Hshrink.
    unfold class_consistent. rewrite __exit___signal_map.
    repeat split; [done| |].
    + by apply (sublist_NoDup _ _ Hrs).
    + etrans; [by apply sublist_subseteq|done].
  - destruct (_handle_signal_dicts handler_body set_iter self sig fr)
      as [Hpsm Hprs].
    unfold class_consistent. by rewrite Hpsm, Hprs.
Qed.

(** X15. In a state where no dict has a key twice and every override
    key is a registry key, these stay true after any public calls,
    teardowns and dispatches, on whatever instances and however they
    end. *)
Theorem class_consistent_kept es w :
  class_consistent w ->
  class_consistent (after_events handler_body set_iter es w).
Proof.
  revert w. induction es as [|e es IH]; intros w Hinv; simpl; [done|].
  by apply IH, do_event_class_consistent.
Qed.
End events_facts.

(** ** Instances of the further properties *)

Lemma other_signals_unaffected_witness :
  SIGTERM ≠ op_signal (OpAdd SIGUSR1 4%nat) /\
  get (signal_map
         (snd (do_op direct_manager (OpAdd SIGUSR1 4%nat) mixed_modes)))
      SIGTERM
    = get (signal_map mixed_modes) SIGTERM /\
  delivered quiet_handlers elements loop_manager SIGTERM None
      (snd (do_op direct_manager (OpAdd SIGUSR1 4%nat) mixed_modes))
    = delivered quiet_handlers elements loop_manager SIGTERM None mixed_modes.
Proof.
  assert (SIGTERM ≠ op_signal (OpAdd SIGUSR1 4%nat)) as Hne by compute_done.
  split; [exact Hne|].
  destruct (other_signals_unaffected quiet_handlers elements direct_manager
              loop_manager (OpAdd SIGUSR1 4%nat) SIGTERM None mixed_modes Hne)
    as (Hget & _ & Hcalls).
  split; [exact Hget | exact Hcalls].
Defined.

Lemma removed_handler_not_called_witness :
  (forall hs : gset handler, elements hs ≡ₚ elements hs) /\
  times_called 2%nat SIGUSR1 None
    (delivered handler_3_raises elements direct_manager SIGUSR1 None
       (snd (remove_signal_handler direct_manager SIGUSR1 2%nat
               three_handlers))) = 0.
Proof.
  split; [exact elements_is_iteration|].
  apply (removed_handler_not_called handler_3_raises elements
           elements_is_iteration direct_manager direct_manager SIGUSR1
           2%nat None three_handlers).
Defined.

Lemma handle_signal_only_calls_witness :
  (forall hs : gset handler, elements hs ≡ₚ elements hs) /\
  signal_map
    (snd (_handle_signal handler_3_raises elements direct_manager SIGUSR1
            None three_handlers)) = signal_map three_handlers /\
  calls
    (snd (_handle_signal handler_3_raises elements direct_manager SIGUSR1
            None three_handlers))
    = calls three_handlers ++
      delivered handler_3_raises elements direct_manager SIGUSR1 None
        three_handlers.
Proof.
  split; [exact elements_is_iteration|].
  destruct (handle_signal_only_calls handler_3_raises elements
              elements_is_iteration direct_manager SIGUSR1 None
              three_handlers) as (Hsm & _ & _ & _ & Hcalls & _).
  split; [exact Hsm | exact Hcalls].
Defined.

Lemma dispatch_after_last_removal_witness :
  (forall hs : gset handler, elements hs ≡ₚ elements hs) /\
  get (signal_map one_handler) SIGUSR1 = Some {[1%nat]} /\
  ((remove_signal_handler direct_manager SIGUSR1 1%nat ;;
    _handle_signal quiet_handlers elements direct_manager SIGUSR1 None)
     one_handler
   = (Ok tt,
      snd (remove_signal_handler direct_manager SIGUSR1 1%nat one_handler))).
Proof.
  assert (get (signal_map one_handler) SIGUSR1 = Some {[1%nat]}) as Hget
    by reflexivity.
  split; [exact elements_is_iteration|]. split; [exact Hget|].
  exact (dispatch_after_last_removal quiet_handlers elements
           elements_is_iteration direct_manager SIGUSR1 1%nat None
           one_handler Hget).
Defined.

Lemma three_handlers_class_consistent : class_consistent three_handlers.
Proof.
  unfold class_consistent.
  change (keys (signal_map three_handlers)) with [SIGUSR1].
  change (keys (replaced_signals three_handlers)) with [SIGUSR1].
  repeat split; try done; apply NoDup_singleton.
Qed.

Lemma exit_direct_restores_all_witness :
  event_loop direct_manager = None /\
  class_consistent three_handlers /\
  (forall s, s ∈ keys (signal_map three_handlers) ->
             s ∈ keys (replaced_signals three_handlers)) /\
  exists w',
    __exit__ direct_manager three_handlers = (Ok tt, w') /\
    replaced_signals w' = [] /\
    (forall s, os_disposition w' s = recorded_or_current three_handlers s).
Proof.
  assert (forall s, s ∈ keys (signal_map three_handlers) ->
                    s ∈ keys (replaced_signals three_handlers)) as Hall
    by (intros s Hs; exact Hs).
  split; [reflexivity|]. split; [exact three_handlers_class_consistent|].
  split; [exact Hall|].
  destruct (exit_direct_restores_all direct_manager three_handlers eq_refl
              three_handlers_class_consistent Hall)
    as (w' & Hrun & _ & Hrs & Hos & _).
  exists w'. split; [exact Hrun|]. split; [exact Hrs | exact Hos].
Defined.

Lemma exit_direct_stops_at_missing_override_witness :
  event_loop direct_manager = None /\
  keys (signal_map mixed_modes) = [SIGUSR1] ++ SIGTERM :: [] /\
  NoDup [SIGUSR1] /\
  NoDup (keys (replaced_signals mixed_modes)) /\
  (forall s, s ∈ [SIGUSR1] -> s ∈ keys (replaced_signals mixed_modes)) /\
  (SIGTERM ∉ keys (replaced_signals mixed_modes)) /\
  exists w',
    __exit__ direct_manager mixed_modes
      = (Raise (KeyError (KSig SIGTERM)), w') /\
    signal_map w' = signal_map mixed_modes /\
    (forall s, s ∈ [SIGUSR1] ->
       os_disposition w' s = recorded_or_current mixed_modes s /\
       get (replaced_signals w') s = None).
Proof.
  assert (NoDup [SIGUSR1]) as Hnd by apply NoDup_singleton.
  assert (NoDup (keys (replaced_signals mixed_modes))) as Hrs
    by apply NoDup_singleton.
  assert (forall s, s ∈ [SIGUSR1] ->
                    s ∈ keys (replaced_signals mixed_modes)) as Hall
    by (intros s Hs; exact Hs).
  assert (SIGTERM ∉ keys (replaced_signals mixed_modes)) as Hk
    by compute_done.
  split; [reflexivity|]. split; [reflexivity|]. split; [exact Hnd|].
  split; [exact Hrs|]. split; [exact Hall|]. split; [exact Hk|].
  destruct (exit_direct_stops_at_missing_override direct_manager mixed_modes
              [SIGUSR1] SIGTERM [] eq_refl eq_refl Hnd Hrs Hall Hk)
    as (w' & Hrun & Hsm & Hpre & _).
  exists w'. split; [exact Hrun|]. split; [exact Hsm | exact Hpre].
Defined.

Lemma exit_loop_detaches_watchers_witness :
  event_loop loop_manager = Some 0%nat /\
  exists w',
    __exit__ loop_manager mixed_modes = (Ok tt, w') /\
    signal_map w' = signal_map mixed_modes /\
    replaced_signals w' = replaced_signals mixed_modes /\
    (forall s,
       os_disposition w' s =
         match get (replaced_signals mixed_modes) s with
         | Some d => d
         | None =>
             if decide (s ∈ keys (signal_map mixed_modes) /\
                        is_Some (loop_watchers mixed_modes 0%nat s))
             then loop_default s else os_disposition mixed_modes s
         end) /\
    (forall l' s,
       loop_watchers w' l' s =
         if decide (l' = 0%nat /\ s ∈ keys (signal_map mixed_modes)) then None
         else loop_watchers mixed_modes l' s) /\
    calls w' = calls mixed_modes.
Proof.
  split; [reflexivity|].
  exact (exit_loop_detaches_watchers loop_manager 0%nat mixed_modes eq_refl).
Defined.

(** In that state the loop manager's teardown puts [SIGUSR1] back to its
    recorded disposition although the direct manager still holds it. *)
Example exit_loop_restores_other_managers_signal :
  os_disposition mixed_modes SIGUSR1 = BoundHandleSignal 0 /\
  os_disposition (snd (__exit__ loop_manager mixed_modes)) SIGUSR1 = SIG_DFL /\
  replaced_signals (snd (__exit__ loop_manager mixed_modes))
    = [(SIGUSR1, SIG_DFL)].
Proof. repeat split. Qed.

(** An event-loop manager does not give back what it took: [SIGTERM]
    was ignored, is watched through the loop's no-op handler after the
    registration, and is at [SIG_DFL] after teardown. *)
Example loop_mode_loses_earlier_disposition :
  os_disposition ignoring_sigterm SIGTERM = SIG_IGN /\
  os_disposition
    (snd (add_signal_handler loop_manager SIGTERM 1%nat ignoring_sigterm))
    SIGTERM = SighandlerNoop /\
  exists w',
    (add_signal_handler loop_manager SIGTERM 1%nat ;;
     __exit__ loop_manager) ignoring_sigterm = (Ok tt, w') /\
    os_disposition w' SIGTERM = SIG_DFL /\
    replaced_signals w' = [].
Proof. repeat split. eexists. repeat split. Qed.

Lemma run_direct_installs_trampolines_witness :
  event_loop direct_manager = None /\
  exists w',
    run direct_manager [OpAdd SIGUSR1 1%nat; OpRemove SIGUSR1 1%nat]
      (initial_world None) = (Ok tt, w') /\
    (forall s, os_disposition w' s =
       if decide (s ∈ keys (signal_map w') /\
                  s ∉ keys (signal_map (initial_world None)))
       then BoundHandleSignal (self_id direct_manager)
       else os_disposition (initial_world None) s) /\
    (forall s, get (replaced_signals w') s =
       if decide (s ∈ keys (signal_map w') /\
                  s ∉ keys (signal_map (initial_world None)))
       then Some (os_disposition (initial_world None) s)
       else get (replaced_signals (initial_world None)) s) /\
    loop_watchers w' = loop_watchers (initial_world None).
Proof.
  split; [reflexivity|].
  exact (run_direct_installs_trampolines direct_manager
           [OpAdd SIGUSR1 1%nat; OpRemove SIGUSR1 1%nat]
           (initial_world None) eq_refl).
Defined.

Lemma run_loop_installs_watchers_witness :
  event_loop loop_manager = Some 0%nat /\
  exists w',
    run loop_manager [OpAdd SIGTERM 2%nat; OpRemove SIGTERM 2%nat]
      ignoring_sigterm = (Ok tt, w') /\
    (forall l' s, loop_watchers w' l' s =
       if decide (l' = 0%nat /\
                  s ∈ keys (signal_map w') /\
                  s ∉ keys (signal_map ignoring_sigterm))
       then Some (LambdaHandleSignal (self_id loop_manager) s)
       else loop_watchers ignoring_sigterm l' s) /\
    (forall s, os_disposition w' s =
       if decide (s ∈ keys (signal_map w') /\
                  s ∉ keys (signal_map ignoring_sigterm))
       then SighandlerNoop else os_disposition ignoring_sigterm s) /\
    replaced_signals w' = replaced_signals ignoring_sigterm.
Proof.
  split; [reflexivity|].
  exact (run_loop_installs_watchers loop_manager 0%nat
           [OpAdd SIGTERM 2%nat; OpRemove SIGTERM 2%nat]
           ignoring_sigterm eq_refl).
Defined.

Lemma initial_world_class_consistent running :
  class_consistent (initial_world running).
Proof. repeat split; try apply NoDup_nil_2. done. Qed.

Lemma class_consistent_kept_witness :
  class_consistent (initial_world None) /\
  class_consistent
    (after_events quiet_handlers elements
       [EvAdd loop_manager SIGTERM 1%nat;
        EvAdd direct_manager SIGUSR1 2%nat;
        EvExit direct_manager;
        EvDeliver direct_manager SIGUSR1 None;
        EvRemove loop_manager SIGTERM 1%nat]
       (initial_world None)).
Proof.
  split; [exact (initial_world_class_consistent None)|].
  exact (class_consistent_kept quiet_handlers elements _ (initial_world None)
           (initial_world_class_consistent None)).
Defined.

(** ** The private install and uninstall steps *)

Lemma del_set_absent {V} (d : dict V) k v :
  k ∉ keys d -> del (set d k v) k = d.
Proof.
  induction d as [|[k0 v0] d IH]; simpl.
  - intros _. by rewrite decide_True.
  - intros [Hne Hd]%not_elem_of_cons.
    rewrite decide_False by congruence. simpl.
    rewrite decide_False by congruence. by rewrite IH.
Qed.

(** X16. Direct mode, a signal without an override entry:
    [_add_signal_handler] followed by [_remove_signal_handler] returns
    and leaves every disposition and the override table as they were.
    [_remove_signal_handler] alone raises [KeyError] for the signal and
    changes nothing. *)
Theorem install_then_uninstall_direct self sig w :
  event_loop self = None ->
  sig ∉ keys (replaced_signals w) ->
  (exists w',
     (_add_signal_handler self sig ;; _remove_signal_handler self sig) w
       = (Ok tt, w') /\
     signal_map w' = signal_map w /\
     replaced_signals w' = replaced_signals w /\
     (forall s, os_disposition w' s = os_disposition w s) /\
     loop_watchers w' = loop_watchers w /\
     calls w' = calls w) /\
  _remove_signal_handler self sig w = (Raise (KeyError (KSig sig)), w).
Proof.
  intros Hdirect Hnotin. split.
  - eexists. split.
    + unfold _add_signal_handler, _remove_signal_handler. rewrite Hdirect.
      step_monad. rewrite get_set_eq. simpl. by rewrite get_set_eq.
    + simpl. rewrite del_set_absent by done. repeat split; try done.
      intros s. by destruct (decide (s = sig)) as [->|].
  - unfold _remove_signal_handler. rewrite Hdirect. step_monad.
    apply get_None_keys in Hnotin. by rewrite Hnotin.
Qed.

Lemma install_then_uninstall_direct_witness :
  event_loop direct_manager = None /\
  (SIGTERM ∉ keys (replaced_signals three_handlers)) /\
  (exists w',
     (_add_signal_handler direct_manager SIGTERM ;;
      _remove_signal_handler direct_manager SIGTERM) three_handlers
       = (Ok tt, w') /\
     replaced_signals w' = replaced_signals three_handlers /\
     (forall s, os_disposition w' s = os_disposition three_handlers s)) /\
  _remove_signal_handler direct_manager SIGTERM three_handlers
    = (Raise (KeyError (KSig SIGTERM)), three_handlers).
Proof.
  assert (SIGTERM ∉ keys (replaced_signals three_handlers)) as Hnotin
    by compute_done.
  split; [reflexivity|]. split; [exact Hnotin|].
  destruct (install_then_uninstall_direct direct_manager SIGTERM
              three_handlers eq_refl Hnotin)
    as [(w' & Hrun & _ & Hrs & Hos & _) Hraise].
  split; [|exact Hraise].
  exists w'. split; [exact Hrun|]. split; [exact Hrs | exact Hos].
Defined.
